(** * ViaVoice speech-dispatcher module: text normalisation and audio collection

    A shallow embedding of the text pipeline ([strip_ssml],
    [decode_xml_entities], [sanitize_for_viavoice]), of the audio
    collector ([eci_callback], [module_speak_sync], [module_stop]) and of
    the settings, configuration and life cycle ([module_set],
    [module_config], [module_init], [module_close]) of [sd_viavoice.c],
    followed by the properties established about them. *)

From Stdlib Require Import String Ascii ZArith Arith Bool List Lia.
From Equations Require Import Equations.
Import ListNotations.
Open Scope Z_scope.

(** ** Bytes and C strings *)

(** A [char] buffer is a list of byte values.  A C string is read up to its
    first NUL; reading at the end of the list yields the terminating NUL. *)
Definition bytes_of_string (s : string) : list Z :=
  map (fun a => Z.of_N (N_of_ascii a)) (list_ascii_of_string s).

(** Reading through a pointer [p] into a NUL-terminated buffer. *)
Definition deref (p : list Z) : Z := hd 0 p.

(** The contents of a C string: everything before the first NUL. *)
Fixpoint c_str (buf : list Z) : list Z :=
  match buf with
  | [] => []
  | c :: rest => if c =? 0 then [] else c :: c_str rest
  end.

Fixpoint drop_while (f : Z -> bool) (l : list Z) : list Z :=
  match l with
  | [] => []
  | c :: rest => if f c then drop_while f rest else l
  end.

(** ** strip_ssml *)

(** The tag-removal loop of [strip_ssml]: [in_tag] is the loop's flag, the
    result is what has been stored through [result[j++]]. *)
Fixpoint strip_tags (text : list Z) (in_tag : bool) : list Z :=
  match text with
  | [] => []
  | c :: rest =>
      if c =? 60 then strip_tags rest true
      else if c =? 62 then strip_tags rest false
      else if negb in_tag then c :: strip_tags rest in_tag
      else strip_tags rest in_tag
  end.

Record entity := { ent_text : list Z; ent_ch : Z; ent_len : nat }.

(** The table [entities] of [decode_xml_entities]. *)
Definition entities : list entity :=
  [ {| ent_text := bytes_of_string "&amp;";  ent_ch := 38; ent_len := 5 |};
    {| ent_text := bytes_of_string "&lt;";   ent_ch := 60; ent_len := 4 |};
    {| ent_text := bytes_of_string "&gt;";   ent_ch := 62; ent_len := 4 |};
    {| ent_text := bytes_of_string "&apos;"; ent_ch := 39; ent_len := 6 |};
    {| ent_text := bytes_of_string "&quot;"; ent_ch := 34; ent_len := 6 |} ].

(** [strncmp(s1, s2, n) == 0]. *)
Fixpoint strncmp_eq (s1 s2 : list Z) (n : nat) : bool :=
  match n with
  | O => true
  | S n' =>
      if deref s1 =? deref s2
      then (if deref s1 =? 0 then true else strncmp_eq (tl s1) (tl s2) n')
      else false
  end.

(** The [for (e = 0; e < 5; e++)] search, leaving at the first match. *)
Definition find_entity (src : list Z) : option entity :=
  find (fun e => strncmp_eq src (ent_text e) (ent_len e)) entities.

(** One iteration of the [while] loop of [decode_xml_entities]:
    the byte stored through [*dst++] and the advanced [src]. *)
Definition decode_step (src : list Z) : Z * list Z :=
  if deref src =? 38 then
    match find_entity src with
    | Some e => (ent_ch e, skipn (ent_len e) src)
    | None => (deref src, tl src)
    end
  else (deref src, tl src).

Lemma find_entity_len src e : find_entity src = Some e -> (0 < ent_len e)%nat.
Proof.
  unfold find_entity. intros H. apply find_some in H. destruct H as [Hin _].
  simpl in Hin.
  repeat (destruct Hin as [<- | Hin]; [simpl; lia |]). destruct Hin.
Qed.

Lemma decode_step_shrinks c rest :
  (length (snd (decode_step (c :: rest))) < length (c :: rest))%nat.
Proof.
  unfold decode_step.
  destruct (deref (c :: rest) =? 38); [| simpl; lia].
  destruct (find_entity (c :: rest)) as [e |] eqn:E; [| simpl; lia].
  apply find_entity_len in E. cbn [snd].
  rewrite length_skipn. simpl length. lia.
Qed.

(** [decode_xml_entities], as the contents of the buffer after the call.
    The source rewrites the buffer in place with [dst <= src]; the bytes
    stored through [dst] are returned in order. *)
Equations? decode_xml_entities (src : list Z) : list Z by wf (length src) lt :=
  decode_xml_entities [] := [];
  decode_xml_entities (c :: rest) :=
    if c =? 0 then []
    else fst (decode_step (c :: rest))
           :: decode_xml_entities (snd (decode_step (c :: rest))).
Proof. apply decode_step_shrinks. Qed.

(** The characters trimmed by [strip_ssml]: space, newline, tab. *)
Definition is_trim_ws (c : Z) : bool := (c =? 32) || (c =? 10) || (c =? 9).

(** The leading-whitespace scan that advances [start], as an offset into
    [result]. *)
Fixpoint skip_leading (result : list Z) : nat :=
  match result with
  | [] => O
  | c :: rest => if is_trim_ws c then S (skip_leading rest) else O
  end.

(** The backward scan [while (end > start && ...) end--], on offsets into
    [result]. *)
Fixpoint scan_back (result : list Z) (start e : nat) : nat :=
  match e with
  | O => O
  | S e' =>
      if (start <? e)%nat && is_trim_ws (nth e result 0)
      then scan_back result start e'
      else e
  end.

(** The trimming tail of [strip_ssml], on the C string [result]. *)
Definition trim_in_place (result : list Z) : list Z :=
  let start := skip_leading result in
  let j := length result in
  if (j =? 0)%nat then result
  else
    let e := scan_back result start (j - 1) in
    let truncated := firstn (S e) result in
    if (start =? 0)%nat then truncated else skipn start truncated.

(** [strip_ssml(text, len)] where [text] lists the [len] bytes read; the
    result is the returned C string ([malloc] is taken to succeed). *)
Definition strip_ssml (text : list Z) : list Z :=
  trim_in_place (decode_xml_entities (strip_tags text false)).

(** Trimming as the specification words it: leading and trailing space, tab
    and newline removed.  [trim_in_place] is compared with it below. *)
Definition trim (l : list Z) : list Z :=
  rev (drop_while is_trim_ws (rev (drop_while is_trim_ws l))).

(** All occurrences of one byte removed. *)
Definition remove_byte (b : Z) (l : list Z) : list Z :=
  filter (fun c => negb (c =? b)) l.

(** ** sanitize_for_viavoice *)

(** The pass-through test of the ASCII branch. *)
Definition is_safe_char (c : Z) : bool :=
  ((65 <=? c) && (c <=? 90)) ||
  ((97 <=? c) && (c <=? 122)) ||
  ((48 <=? c) && (c <=? 57)) ||
  (c =? 32) || (c =? 9) || (c =? 10) ||
  (c =? 46) || (c =? 44) || (c =? 33) || (c =? 63) ||
  (c =? 36) || (c =? 39).

(** The clause-break test: [; : ( ) [ ] { }]. *)
Definition is_clause_break (c : Z) : bool :=
  (c =? 59) || (c =? 58) ||
  (c =? 40) || (c =? 41) ||
  (c =? 91) || (c =? 93) ||
  (c =? 123) || (c =? 125).

(** Space or tab, tested on [dst[-1]] and on [*src] after a clause break. *)
Definition is_blank (c : Z) : bool := (c =? 32) || (c =? 9).

(** The punctuation skipped after a clause break: [. , ! ? ; :]. *)
Definition is_trailing_punct (c : Z) : bool :=
  (c =? 46) || (c =? 44) || (c =? 33) || (c =? 63) || (c =? 59) || (c =? 58).

(** The clause-break block, shared by the ASCII and the dash branch.  [src]
    is the input already advanced past the clause-break character; [dst]
    holds the bytes written so far, most recent first, so that [dst[-1]] is
    its head and [dst > out] means it is not empty. *)
Definition clause_break (src dst : list Z) : list Z * list Z :=
  let dst1 := drop_while is_blank dst in
  let dst2 := match dst1 with [] => dst1 | _ :: _ => 44 :: dst1 end in
  let src1 := drop_while is_trailing_punct src in
  let src2 := drop_while is_blank src1 in
  (src2, 32 :: dst2).

(** The word chosen for the second byte of a [0xC2] sequence. *)
Definition currency_word (b : Z) : option (list Z) :=
  if b =? 163 then Some (bytes_of_string "pound")
  else if b =? 162 then Some (bytes_of_string "cent")
  else if b =? 165 then Some (bytes_of_string "yen")
  else None.

(** Copying a word through [*dst++]. *)
Definition emit_word (w dst : list Z) : list Z := rev w ++ dst.

(** [seqlen] from the lead byte. *)
Definition seqlen_of (c : Z) : nat :=
  if c <? 224 then 2%nat else if c <? 240 then 3%nat else 4%nat.

(** The [valid] loop: [src[1] .. src[seqlen-1]] are all non-NUL. *)
Definition seq_valid (src : list Z) (seqlen : nat) : bool :=
  forallb (fun i => negb (nth i src 0 =? 0)) (seq 1 (seqlen - 1)).

(** One iteration of the main loop of [sanitize_for_viavoice], entered with
    [*src] non-NUL: the advanced [src] and the new [dst]. *)
Definition sanitize_step (src dst : list Z) : list Z * list Z :=
  let c := deref src in
  if c <? 128 then
    if is_safe_char c then (tl src, c :: dst)
    else if is_clause_break c then clause_break (tl src) dst
    else (tl src, 32 :: dst)
  else
    let seqlen := seqlen_of c in
    if negb (seq_valid src seqlen) then (tl src, dst)
    else
      match (if (seqlen =? 2)%nat && (c =? 194)
             then currency_word (nth 1 src 0) else None) with
      | Some word => (skipn 2 src, emit_word word dst)
      | None =>
          if (seqlen =? 3)%nat && (c =? 226) &&
             (nth 1 src 0 =? 130) && (nth 2 src 0 =? 172)
          then (skipn 3 src, emit_word (bytes_of_string "euro") dst)
          else if (seqlen =? 3)%nat && (c =? 226) && (nth 1 src 0 =? 128) &&
                  ((nth 2 src 0 =? 148) || (nth 2 src 0 =? 147))
          then clause_break (skipn 3 src) dst
          else (skipn seqlen src, 32 :: dst)
      end.

Lemma drop_while_length f l : (length (drop_while f l) <= length l)%nat.
Proof.
  induction l as [| c rest IH]; simpl; [lia |].
  destruct (f c); simpl; lia.
Qed.

Lemma clause_break_length src dst :
  (length (fst (clause_break src dst)) <= length src)%nat.
Proof.
  unfold clause_break. cbn [fst].
  etransitivity; [apply drop_while_length | apply drop_while_length].
Qed.

Lemma sanitize_step_shrinks c rest dst :
  (length (fst (sanitize_step (c :: rest) dst)) < length (c :: rest))%nat.
Proof.
  pose proof (clause_break_length rest dst) as Hcb.
  pose proof (clause_break_length (skipn 3 (c :: rest)) dst) as Hcb3.
  rewrite length_skipn in Hcb3.
  unfold sanitize_step. cbn [deref hd tl].
  repeat match goal with
         | |- context [if ?b then _ else _] => destruct b
         | |- context [match ?o with Some _ => _ | None => _ end] => destruct o
         end;
    cbn [fst]; rewrite ?length_skipn; cbn [length] in *;
    try lia.
  all: unfold seqlen_of; repeat match goal with
         | |- context [if ?b then _ else _] => destruct b end; lia.
Qed.

(** The main loop of [sanitize_for_viavoice]. *)
Equations? sanitize_loop (src dst : list Z) : list Z by wf (length src) lt :=
  sanitize_loop [] dst := dst;
  sanitize_loop (c :: rest) dst :=
    if c =? 0 then dst
    else sanitize_loop (fst (sanitize_step (c :: rest) dst))
                       (snd (sanitize_step (c :: rest) dst)).
Proof. apply sanitize_step_shrinks. Qed.

(** [sanitize_for_viavoice(text)]: the returned C string ([malloc] is taken
    to succeed and the buffer to be large enough for what is written). *)
Definition sanitize_for_viavoice (text : list Z) : list Z :=
  rev (sanitize_loop text []).

(** The safe set as the specification declares it: ASCII letters, digits,
    space, tab, newline and the punctuation [. , ! ? $ ']. *)
Definition declared_safe (c : Z) : Prop :=
  65 <= c <= 90 \/ 97 <= c <= 122 \/ 48 <= c <= 57 \/
  In c [32; 9; 10; 46; 44; 33; 63; 36; 39].

(** Size in bytes of the buffer the function allocates. *)
Definition sanitize_buffer_size (text : list Z) : Z :=
  Z.of_nat (length (c_str text)) * 2 + 1.

(** Bytes the function stores, the terminating NUL included. *)
Definition sanitize_bytes_written (text : list Z) : Z :=
  Z.of_nat (length (sanitize_for_viavoice text)) + 1.

(** ** The audio collector *)

Inductive ECIMessage :=
| eciWaveformBuffer | eciPhonemeBuffer | eciIndexReply | eciPhonemeIndexReply.

Inductive ECICallbackReturn := eciDataNotProcessed | eciDataProcessed.

Definition ECIMessage_eqb (a b : ECIMessage) : bool :=
  match a, b with
  | eciWaveformBuffer, eciWaveformBuffer
  | eciPhonemeBuffer, eciPhonemeBuffer
  | eciIndexReply, eciIndexReply
  | eciPhonemeIndexReply, eciPhonemeIndexReply => true
  | _, _ => false
  end.

(** One [short] of a heap block: written, or never initialised. *)
Inductive cell := Undef | Sample (v : Z).

(** [AudioData].  [samples] is [None] for a NULL pointer and otherwise the
    contents of the block it points to.  The counters are C [int]s, taken
    in the range where their sums do not overflow. *)
Record AudioData := mkAudioData {
  samples : option (list cell);
  num_samples : Z;
  allocated : Z
}.

(** The module state the collector and the orchestrator share. *)
Record module_state := mkState {
  eciHandle : bool;            (* [eciHandle != NULL_ECI_HAND] *)
  stop_requested : bool;
  eci_sample_rate : Z;
  audio_buffer_size : Z;
  audio_data : AudioData;
  audio_mutex : bool           (* held *)
}.

Definition set_stop (b : bool) (st : module_state) : module_state :=
  mkState (eciHandle st) b (eci_sample_rate st) (audio_buffer_size st)
          (audio_data st) (audio_mutex st).

Definition set_audio (ad : AudioData) (st : module_state) : module_state :=
  mkState (eciHandle st) (stop_requested st) (eci_sample_rate st)
          (audio_buffer_size st) ad (audio_mutex st).

Definition set_mutex (b : bool) (st : module_state) : module_state :=
  mkState (eciHandle st) (stop_requested st) (eci_sample_rate st)
          (audio_buffer_size st) (audio_data st) b.

(** What the engine supplies with one callback invocation: the message
    kind, [param], the contents of the scratch buffer [audio_buffer] it has
    just filled, and whether a [realloc] made during the call succeeds. *)
Record invocation := mkInvocation {
  inv_msg : ECIMessage;
  inv_param : Z;
  inv_scratch : list Z;
  inv_realloc_ok : bool
}.

(** [realloc(p, n * sizeof(short))]: on success a block of [n] cells that
    keeps the old contents; on failure NULL. *)
Definition realloc (ok : bool) (p : option (list cell)) (n : Z) : option (list cell) :=
  if ok then
    let old := match p with Some b => b | None => [] end in
    Some (firstn (Z.to_nat n) old ++ repeat Undef (Z.to_nat n - length old))
  else None.

(** [memcpy(p + off, src, n * sizeof(short))].  A store through NULL is
    undefined in C; here the pointer stays NULL. *)
Definition memcpy_at (p : option (list cell)) (off : Z) (src : list Z) (n : Z)
  : option (list cell) :=
  match p with
  | None => None
  | Some b =>
      let o := Z.to_nat off in
      let frag := map Sample (firstn (Z.to_nat n) src) in
      Some (firstn o b ++ frag ++ skipn (o + length frag) b)
  end.

(** The region of [eci_callback] between [pthread_mutex_lock] and the
    unlock: the new [audio_data] and the value to return. *)
Definition collect (size : Z) (inv : invocation) (ad : AudioData)
  : AudioData * ECICallbackReturn :=
  let new_samples := inv_param inv in
  let new_size := num_samples ad + new_samples in
  if new_size >? allocated ad then
    let alloc_size := new_size + size in
    match realloc (inv_realloc_ok inv) (samples ad) alloc_size with
    | None => (mkAudioData None (num_samples ad) (allocated ad), eciDataNotProcessed)
    | Some b =>
        (mkAudioData (memcpy_at (Some b) (num_samples ad) (inv_scratch inv) new_samples)
                     new_size alloc_size,
         eciDataProcessed)
    end
  else
    (mkAudioData (memcpy_at (samples ad) (num_samples ad) (inv_scratch inv) new_samples)
                 new_size (allocated ad),
     eciDataProcessed).

(** [eci_callback], run without interruption. *)
Definition eci_callback (st : module_state) (inv : invocation)
  : module_state * ECICallbackReturn :=
  if stop_requested st then (st, eciDataNotProcessed)
  else if ECIMessage_eqb (inv_msg inv) eciWaveformBuffer then
    let st1 := set_mutex true st in
    let (ad, r) := collect (audio_buffer_size st1) inv (audio_data st1) in
    (set_mutex false (set_audio ad st1), r)
  else (st, eciDataProcessed).

(** [module_stop] and [module_pause] on the module state ([eciStop] acts on
    the engine only). *)
Definition module_stop (st : module_state) : module_state := set_stop true st.
Definition module_pause (st : module_state) : module_state := set_stop true st.

(** *** The callback statement by statement, with a concurrent stop *)

(** Where an invocation of [eci_callback] stands. *)
Inductive pc :=
| AtCheck                         (* before [if (stop_requested)] *)
| AtLock                          (* before [pthread_mutex_lock] *)
| AtCollect                       (* inside the locked region *)
| AtUnlock (r : ECICallbackReturn) (* before [pthread_mutex_unlock] *)
| Returned (r : ECICallbackReturn).

(** One statement of the running invocation. *)
Definition cb_step (inv : invocation) (st : module_state) (p : pc)
  : module_state * pc :=
  match p with
  | AtCheck =>
      if stop_requested st then (st, Returned eciDataNotProcessed)
      else if ECIMessage_eqb (inv_msg inv) eciWaveformBuffer then (st, AtLock)
      else (st, Returned eciDataProcessed)
  | AtLock => (set_mutex true st, AtCollect)
  | AtCollect =>
      let (ad, r) := collect (audio_buffer_size st) inv (audio_data st) in
      (set_audio ad st, AtUnlock r)
  | AtUnlock r => (set_mutex false st, Returned r)
  | Returned r => (st, Returned r)
  end.

(** The module together with the engine's callback thread: the invocation
    in progress, if any, and the invocations the engine will still make. *)
Record system := mkSystem {
  sys_state : module_state;
  sys_current : option (invocation * pc);
  sys_pending : list invocation
}.

(** Who moves next: the callback thread, or the thread serving a stop. *)
Inductive actor := Cb | Stop.

Definition sys_step (a : actor) (s : system) : system :=
  match a with
  | Stop => mkSystem (module_stop (sys_state s)) (sys_current s) (sys_pending s)
  | Cb =>
      match sys_current s with
      | None =>
          match sys_pending s with
          | [] => s
          | inv :: rest => mkSystem (sys_state s) (Some (inv, AtCheck)) rest
          end
      | Some (inv, Returned _) => mkSystem (sys_state s) None (sys_pending s)
      | Some (inv, p) =>
          let (st', p') := cb_step inv (sys_state s) p in
          mkSystem st' (Some (inv, p')) (sys_pending s)
      end
  end.

(** Running an interleaving. *)
Definition run (sched : list actor) (s : system) : system :=
  fold_left (fun s a => sys_step a s) sched s.

(** No invocation is between its check of [stop_requested] and its return. *)
Definition before_check (s : system) : bool :=
  match sys_current s with
  | None | Some (_, AtCheck) | Some (_, Returned _) => true
  | Some (_, _) => false
  end.

(** ** The orchestrator *)

(** Modelled from the spec: the message kinds of [SPDMessageType], declared
    in the host's [spd_module_main.h]: ordinary text, sound-icon label,
    single character, key name. *)
Inductive SPDMessageType :=
| SPD_MSGTYPE_TEXT | SPD_MSGTYPE_SOUND_ICON | SPD_MSGTYPE_CHAR | SPD_MSGTYPE_KEY.

Inductive AudioFormat := SPD_AUDIO_LE | SPD_AUDIO_BE.

Record AudioTrack := mkTrack {
  bits : Z;
  num_channels : Z;
  sample_rate : Z;
  track_num_samples : Z;
  track_samples : option (list cell)
}.

(** The calls [module_speak_sync] makes to the host and to the engine, in
    the order made. *)
Inductive event :=
| module_speak_error
| module_speak_ok
| eciAddText (text : list Z)
| module_report_event_begin
| eciSynthesize
| eciSynchronize
| module_report_event_stop
| module_tts_output_server (track : AudioTrack) (format : AudioFormat)
| module_report_event_end.

(** What happens to the module while the engine synthesises: a callback
    invocation, or a stop request served in between. *)
Inductive activity := Deliver (inv : invocation) | StopRequest.

(** The engine's side of one utterance: the results of its calls and what
    reaches the module during [eciSynthesize] and [eciSynchronize]. *)
Record engine := mkEngine {
  add_text_ok : bool;
  synthesize_ok : bool;
  during_synthesize : list activity;
  during_synchronize : list activity
}.

(** The value a callback returns goes to the engine; what the engine does
    next is part of [during_synthesize] and [during_synchronize]. *)
Definition perform (st : module_state) (a : activity) : module_state :=
  match a with
  | Deliver inv => fst (eci_callback st inv)
  | StopRequest => module_stop st
  end.

Definition perform_all (acts : list activity) (st : module_state) : module_state :=
  fold_left perform acts st.

Definition wants_sanitize (msgtype : SPDMessageType) : bool :=
  match msgtype with
  | SPD_MSGTYPE_TEXT | SPD_MSGTYPE_SOUND_ICON => true
  | _ => false
  end.

Definition is_empty (text : list Z) : bool :=
  match text with [] => true | _ :: _ => false end.

(** [module_speak_sync(data, bytes, msgtype)], [data] listing the [bytes]
    bytes passed.  The three [eciSetVoiceParam] calls act on the engine only
    and are left out. *)
Definition module_speak_sync (eng : engine) (st : module_state)
    (data : list Z) (msgtype : SPDMessageType) : module_state * list event :=
  if negb (eciHandle st) then (st, [module_speak_error])
  else
    let st := set_stop false st in
    let ad := audio_data st in
    let st := set_audio (mkAudioData (samples ad) 0 (allocated ad)) st in
    let text := strip_ssml data in
    if is_empty text then (st, [module_speak_error])
    else
      let text := if wants_sanitize msgtype then sanitize_for_viavoice text else text in
      if wants_sanitize msgtype && is_empty text then (st, [module_speak_error])
      else if negb (add_text_ok eng) then
        (st, [module_speak_ok; eciAddText text; module_report_event_end])
      else
        let st := perform_all (during_synthesize eng) st in
        if negb (synthesize_ok eng) then
          (st, [module_speak_ok; eciAddText text; module_report_event_begin;
                eciSynthesize; module_report_event_end])
        else
          let st := perform_all (during_synchronize eng) st in
          let done := [module_speak_ok; eciAddText text; module_report_event_begin;
                       eciSynthesize; eciSynchronize] in
          if stop_requested st then (st, done ++ [module_report_event_stop])
          else
            let ad := audio_data st in
            let out :=
              if num_samples ad >? 0 then
                [module_tts_output_server
                   (mkTrack 16 1 (eci_sample_rate st) (num_samples ad) (samples ad))
                   SPD_AUDIO_LE]
              else [] in
            (st, done ++ out ++ [module_report_event_end]).

(** The texts handed to [eciAddText] in a run. *)
Fixpoint submitted (evs : list event) : list (list Z) :=
  match evs with
  | [] => []
  | eciAddText t :: rest => t :: submitted rest
  | _ :: rest => submitted rest
  end.

(** The tracks handed to [module_tts_output_server] in a run. *)
Fixpoint delivered (evs : list event) : list AudioTrack :=
  match evs with
  | [] => []
  | module_tts_output_server t _ :: rest => t :: delivered rest
  | _ :: rest => delivered rest
  end.

(** Several statements of one invocation in a row, nothing in between. *)
Fixpoint cb_steps (n : nat) (inv : invocation) (st : module_state) (p : pc)
  : module_state * pc :=
  match n with
  | O => (st, p)
  | S n' => let (st', p') := cb_step inv st p in cb_steps n' inv st' p'
  end.

(** ** Concrete states and runs used below *)

(** The module after [module_init]: engine handle set, nothing collected,
    the scratch buffer of 20000 samples, 22050 Hz. *)
Definition initial_state : module_state :=
  mkState true false 22050 20000 (mkAudioData None 0 0) false.

(** A waveform callback delivering the first [n] samples of [scratch]. *)
Definition waveform (n : Z) (scratch : list Z) (realloc_ok : bool) : invocation :=
  mkInvocation eciWaveformBuffer n scratch realloc_ok.

(** An engine that accepts the text and delivers two full scratch buffers
    and then one more sample, for which the buffer has to grow and
    [realloc] fails. *)
Definition engine_realloc_fails : engine :=
  mkEngine true true
    [ Deliver (waveform 20000 (repeat 7 (Z.to_nat 20000)) true);
      Deliver (waveform 20000 (repeat 8 (Z.to_nat 20000)) true);
      Deliver (waveform 1 (repeat 9 (Z.to_nat 20000)) false) ]
    [].

(** The module state when the third of these callbacks is entered. *)
Definition state_before_failure : module_state :=
  perform_all
    [ Deliver (waveform 20000 (repeat 7 (Z.to_nat 20000)) true);
      Deliver (waveform 20000 (repeat 8 (Z.to_nat 20000)) true) ]
    initial_state.

(** An engine that accepts everything and produces no audio. *)
Definition silent_engine : engine := mkEngine true true [] [].

(** The callback thread about to deliver one fragment of two samples. *)
Definition one_fragment_system : system :=
  mkSystem initial_state None [waveform 2 [5; 6] true].

(** ** Notions used to state further properties *)

(** The flag [in_tag] of the loop of [strip_ssml] after the bytes of
    [text]. *)
Fixpoint tag_state (text : list Z) (in_tag : bool) : bool :=
  match text with
  | [] => in_tag
  | c :: rest =>
      if c =? 60 then tag_state rest true
      else if c =? 62 then tag_state rest false
      else tag_state rest in_tag
  end.

(** The samples collected so far: the first [num_samples] cells of the
    block. *)
Definition collected (ad : AudioData) : list cell :=
  match samples ad with
  | Some blk => firstn (Z.to_nat (num_samples ad)) blk
  | None => []
  end.

(** The samples one invocation hands over: the first [param] of the
    scratch buffer. *)
Definition fragment (inv : invocation) : list cell :=
  map Sample (firstn (Z.to_nat (inv_param inv)) (inv_scratch inv)).

(** The buffer is consistent: the logical length is within the capacity and
    the capacity is the size of the block ([0] for NULL). *)
Definition buffer_ok (ad : AudioData) : Prop :=
  0 <= num_samples ad <= allocated ad /\
  match samples ad with
  | Some blk => Z.of_nat (length blk) = allocated ad
  | None => allocated ad = 0
  end.

(** A waveform callback with a filled scratch buffer, during which memory
    can be had. *)
Definition good_fragment (inv : invocation) : Prop :=
  inv_msg inv = eciWaveformBuffer /\
  inv_realloc_ok inv = true /\
  0 <= inv_param inv <= Z.of_nat (length (inv_scratch inv)).

(** The text [module_speak_sync] prepares for the engine. *)
Definition prepared (data : list Z) (msgtype : SPDMessageType) : list Z :=
  if wants_sanitize msgtype then sanitize_for_viavoice (strip_ssml data)
  else strip_ssml data.

(** ** Settings: module_set *)

Definition is_space (c : Z) : bool := (c =? 32) || ((9 <=? c) && (c <=? 13)).

Definition is_digit (c : Z) : bool := (48 <=? c) && (c <=? 57).

Fixpoint atoi_digits (acc : Z) (s : list Z) : Z :=
  match s with
  | [] => acc
  | c :: rest => if is_digit c then atoi_digits (acc * 10 + (c - 48)) rest else acc
  end.

(** The C library's [atoi]: leading white space, an optional sign, decimal
    digits; for numbers that fit an [int]. *)
Definition atoi (s : list Z) : Z :=
  match drop_while is_space s with
  | 45 :: rest => - atoi_digits 0 rest
  | 43 :: rest => atoi_digits 0 rest
  | rest => atoi_digits 0 rest
  end.

Fixpoint bytes_eqb (a b : list Z) : bool :=
  match a, b with
  | [], [] => true
  | x :: a', y :: b' => (x =? y) && bytes_eqb a' b'
  | _, _ => false
  end.

(** [strcmp(a, b) == 0]. *)
Definition strcmp_eq (a b : list Z) : bool := bytes_eqb (c_str a) (c_str b).

Definition tolower (c : Z) : Z := if (65 <=? c) && (c <=? 90) then c + 32 else c.

(** [strcasecmp(a, b) == 0]. *)
Definition strcasecmp_eq (a b : list Z) : bool :=
  bytes_eqb (map tolower (c_str a)) (map tolower (c_str b)).

(** The per-utterance voice settings [current_rate], [current_pitch] and
    [current_volume]. *)
Record voice_settings := mkSettings {
  current_rate : Z;
  current_pitch : Z;
  current_volume : Z
}.

(** Their initial values. *)
Definition default_settings : voice_settings := mkSettings 50 65 90.

(** [module_set(var, val)] on the settings; the function returns 0 on every
    path.  [/] on [int] truncates toward zero; the arithmetic is taken
    in the range of [int]. *)
Definition module_set (var val : list Z) (s : voice_settings) : voice_settings :=
  if strcmp_eq var (bytes_of_string "voice")
     || strcmp_eq var (bytes_of_string "synthesis_voice")
     || strcmp_eq var (bytes_of_string "language") then s
  else if strcmp_eq var (bytes_of_string "rate") then
    let spd_rate := atoi val in
    let r := Z.quot ((spd_rate + 100) * 250) 200 in
    let r := if r <? 0 then 0 else r in
    let r := if r >? 250 then 250 else r in
    mkSettings r (current_pitch s) (current_volume s)
  else if strcmp_eq var (bytes_of_string "pitch") then
    let spd_pitch := atoi val in
    let p := Z.quot (spd_pitch + 100) 2 in
    let p := if p <? 0 then 0 else p in
    let p := if p >? 100 then 100 else p in
    mkSettings (current_rate s) p (current_volume s)
  else if strcmp_eq var (bytes_of_string "volume") then
    let spd_vol := atoi val in
    let v := Z.quot (spd_vol + 100) 2 in
    let v := if v <? 0 then 0 else v in
    let v := if v >? 100 then 100 else v in
    mkSettings (current_rate s) (current_pitch s) v
  else s.

(** A sequence of [module_set] calls. *)
Definition module_set_all (calls : list (list Z * list Z)) (s : voice_settings)
  : voice_settings :=
  fold_left (fun s call => module_set (fst call) (snd call) s) calls s.

(** ** Configuration: module_config *)

(** The [int] configuration variables. *)
Inductive config_var :=
| config_sample_rate | config_voice
| config_pitch_baseline | config_pitch_fluctuation | config_speed
| config_volume | config_head_size | config_roughness | config_breathiness
| config_phrase_prediction | config_number_mode | config_text_mode
| config_real_world_units.

(** The dictionary path buffers. *)
Inductive dict_var := config_main_dict | config_root_dict | config_abbrev_dict.

Definition config_var_eqb (a b : config_var) : bool :=
  match a, b with
  | config_sample_rate, config_sample_rate
  | config_voice, config_voice
  | config_pitch_baseline, config_pitch_baseline
  | config_pitch_fluctuation, config_pitch_fluctuation
  | config_speed, config_speed
  | config_volume, config_volume
  | config_head_size, config_head_size
  | config_roughness, config_roughness
  | config_breathiness, config_breathiness
  | config_phrase_prediction, config_phrase_prediction
  | config_number_mode, config_number_mode
  | config_text_mode, config_text_mode
  | config_real_world_units, config_real_world_units => true
  | _, _ => false
  end.

Definition dict_var_eqb (a b : dict_var) : bool :=
  match a, b with
  | config_main_dict, config_main_dict
  | config_root_dict, config_root_dict
  | config_abbrev_dict, config_abbrev_dict => true
  | _, _ => false
  end.

(** The configuration variables as a store: the value of each. *)
Record config := mkConfig {
  cfg_int : config_var -> Z;
  cfg_dict : dict_var -> list Z
}.

(** The initialisers in the source. *)
Definition default_config : config :=
  mkConfig
    (fun v => match v with
              | config_sample_rate => 2
              | config_voice => 0
              | config_phrase_prediction => 0
              | _ => -1
              end)
    (fun _ => []).

Definition set_int (v : config_var) (x : Z) (cfg : config) : config :=
  mkConfig (fun v' => if config_var_eqb v v' then x else cfg_int cfg v')
           (cfg_dict cfg).

Definition set_dict (d : dict_var) (path : list Z) (cfg : config) : config :=
  mkConfig (cfg_int cfg)
           (fun d' => if dict_var_eqb d d' then path else cfg_dict cfg d').

(** [int v = atoi(value); if (v >= lo && v <= hi) var = v;] *)
Definition set_if_within (v : config_var) (lo hi : Z) (value : list Z) (cfg : config)
  : config :=
  let x := atoi value in
  if (lo <=? x) && (x <=? hi) then set_int v x cfg else cfg.

(** [int v = atoi(value); if (v >= 0) var = v;] *)
Definition set_if_nonneg (v : config_var) (value : list Z) (cfg : config) : config :=
  let x := atoi value in
  if 0 <=? x then set_int v x cfg else cfg.

(** [strncpy(buf, value, sizeof(buf) - 1); buf[sizeof(buf) - 1] = 0] for a
    buffer of 256 bytes, as the C string left in the buffer. *)
Definition copy_path (value : list Z) : list Z := firstn 255 (c_str value).

(** The chain of key tests of [module_config], for one key and value. *)
Definition config_entry (key value : list Z) (cfg : config) : config :=
  if strcasecmp_eq key (bytes_of_string "ViaVoiceSampleRate") then
    let rate := atoi value in
    if rate =? 8000 then set_int config_sample_rate 0 cfg
    else if rate =? 11025 then set_int config_sample_rate 1 cfg
    else if rate =? 22050 then set_int config_sample_rate 2 cfg
    else if (0 <=? rate) && (rate <=? 2) then set_int config_sample_rate rate cfg
    else cfg
  else if strcasecmp_eq key (bytes_of_string "ViaVoiceDefaultVoice") then
    set_if_within config_voice 0 7 value cfg
  else if strcasecmp_eq key (bytes_of_string "ViaVoicePitchBaseline") then
    set_if_within config_pitch_baseline 0 100 value cfg
  else if strcasecmp_eq key (bytes_of_string "ViaVoicePitchFluctuation") then
    set_if_within config_pitch_fluctuation 0 100 value cfg
  else if strcasecmp_eq key (bytes_of_string "ViaVoiceSpeed") then
    set_if_within config_speed 0 250 value cfg
  else if strcasecmp_eq key (bytes_of_string "ViaVoiceVolume") then
    set_if_within config_volume 0 100 value cfg
  else if strcasecmp_eq key (bytes_of_string "ViaVoiceHeadSize") then
    set_if_within config_head_size 0 100 value cfg
  else if strcasecmp_eq key (bytes_of_string "ViaVoiceRoughness") then
    set_if_within config_roughness 0 100 value cfg
  else if strcasecmp_eq key (bytes_of_string "ViaVoiceBreathiness") then
    set_if_within config_breathiness 0 100 value cfg
  else if strcasecmp_eq key (bytes_of_string "ViaVoiceMainDict") then
    set_dict config_main_dict (copy_path value) cfg
  else if strcasecmp_eq key (bytes_of_string "ViaVoiceRootDict") then
    set_dict config_root_dict (copy_path value) cfg
  else if strcasecmp_eq key (bytes_of_string "ViaVoiceAbbrevDict") then
    set_dict config_abbrev_dict (copy_path value) cfg
  else if strcasecmp_eq key (bytes_of_string "ViaVoicePhrasePrediction") then
    set_if_within config_phrase_prediction 0 1 value cfg
  else if strcasecmp_eq key (bytes_of_string "ViaVoiceNumberMode") then
    set_if_nonneg config_number_mode value cfg
  else if strcasecmp_eq key (bytes_of_string "ViaVoiceTextMode") then
    set_if_nonneg config_text_mode value cfg
  else if strcasecmp_eq key (bytes_of_string "ViaVoiceRealWorldUnits") then
    set_if_within config_real_world_units 0 1 value cfg
  else cfg.

(** The characters a [%63s] conversion stores: at most [width] bytes, up to
    the first white space or the end of the string. *)
Fixpoint take_word (width : nat) (s : list Z) : list Z :=
  match width, s with
  | S w, c :: rest => if (c =? 0) || is_space c then [] else c :: take_word w rest
  | _, _ => []
  end.

(** One [%63s] conversion: leading white space is skipped, then the word is
    stored; the conversion fails when the input has run out.  The result is
    the word and the input left. *)
Definition scan_word (s : list Z) : option (list Z * list Z) :=
  let s1 := drop_while is_space s in
  match take_word 63 s1 with
  | [] => None
  | w => Some (w, skipn (length w) s1)
  end.

(** [sscanf(p, "%63s %63s", key, value) == 2], with the two words. *)
Definition scan_key_value (p : list Z) : option (list Z * list Z) :=
  match scan_word p with
  | None => None
  | Some (key, rest) =>
      match scan_word rest with
      | None => None
      | Some (value, _) => Some (key, value)
      end
  end.

(** The body of the [fgets] loop, for one line read. *)
Definition config_line (line : list Z) (cfg : config) : config :=
  let p := drop_while is_blank line in
  if (deref p =? 35) || (deref p =? 10) || (deref p =? 0) then cfg
  else
    match scan_key_value p with
    | Some (key, value) => config_entry key value cfg
    | None => cfg
    end.

(** [module_config(configfile)].  [file] is [None] when [configfile] is NULL
    or cannot be opened, and otherwise the strings [fgets] returns, in
    order.  The function returns 0 on every path. *)
Definition module_config (file : option (list (list Z))) (cfg : config) : config :=
  match file with
  | None => cfg
  | Some lines => fold_left (fun cfg line => config_line line cfg) lines cfg
  end.

(** ** Initialisation and shutdown: module_init, module_close *)

Inductive ECIParam :=
| eciSynthMode | eciInputType | eciTextMode | eciDictionary | eciSampleRate
| eciWantPhonemeIndices | eciRealWorldUnits | eciLanguageDialect
| eciNumberMode | eciPhrasePrediction | eciNumParams.

Inductive ECIVoiceParam :=
| eciGender | eciHeadSize | eciPitchBaseline | eciPitchFluctuation
| eciRoughness | eciBreathiness | eciSpeed | eciVolume | eciNumVoiceParams.

Inductive ECIDictVolume := eciMainDict | eciRootDict | eciAbbvDict.

(** The calls to the engine and to the allocator made by [module_init] and
    [module_close], in the order made. *)
Inductive engine_call :=
| eciNew
| eciDelete
| eciRegisterCallback
| eciSetOutputBuffer (size : Z)
| eciSetParam (p : ECIParam) (v : Z)
| eciGetParam (p : ECIParam)
| eciSetVoiceParam (voice : Z) (p : ECIVoiceParam) (v : Z)
| eciCopyVoice (from to : Z)
| eciNewDict
| eciLoadDict (vol : ECIDictVolume) (path : list Z)
| eciSetDict
| eciDeleteDict
| free_audio_buffer
| free_samples.

(** What the environment answers during [module_init]. *)
Record init_env := mkInitEnv {
  eciNew_ok : bool;
  malloc_ok : bool;
  eciSetOutputBuffer_ok : bool;
  sample_rate_read_back : Z;     (* result of [eciGetParam(eciSampleRate)] *)
  eciNewDict_ok : bool
}.

(** The pointers [audio_buffer] and [dictHandle]: set or NULL. *)
Record resources := mkResources {
  audio_buffer : bool;
  dictHandle : bool
}.

(** The outcome of [module_init]: return value, module state, resources and
    the calls made. *)
Record init_result := mkInitResult {
  init_return : Z;
  init_state : module_state;
  init_resources : resources;
  init_calls : list engine_call
}.

Definition set_handle (h : bool) (st : module_state) : module_state :=
  mkState h (stop_requested st) (eci_sample_rate st) (audio_buffer_size st)
          (audio_data st) (audio_mutex st).

Definition set_rate (r : Z) (st : module_state) : module_state :=
  mkState (eciHandle st) (stop_requested st) r (audio_buffer_size st)
          (audio_data st) (audio_mutex st).

(** The [switch (rate_code)] of [module_init]. *)
Definition rate_of_code (rate_code : Z) : Z :=
  if rate_code =? 0 then 8000
  else if rate_code =? 1 then 11025
  else if rate_code =? 2 then 22050
  else 22050.

(** [if (value >= 0) eciSetVoiceParam(eciHandle, config_voice, p, value);] *)
Definition voice_param_call (cfg : config) (v : config_var) (p : ECIVoiceParam)
  : list engine_call :=
  if cfg_int cfg v >=? 0
  then [eciSetVoiceParam (cfg_int cfg config_voice) p (cfg_int cfg v)]
  else [].

(** [if (value >= 0) eciSetParam(eciHandle, p, value);] *)
Definition global_param_call (cfg : config) (v : config_var) (p : ECIParam)
  : list engine_call :=
  if cfg_int cfg v >=? 0 then [eciSetParam p (cfg_int cfg v)] else [].

(** [if (path[0] != 0) eciLoadDict(eciHandle, dictHandle, vol, path);] the
    error returned is only logged. *)
Definition load_dict_call (cfg : config) (d : dict_var) (vol : ECIDictVolume)
  : list engine_call :=
  if negb (is_empty (cfg_dict cfg d)) then [eciLoadDict vol (cfg_dict cfg d)] else [].

(** [module_init]; the message strings and the call to the host's
    [module_audio_set_server] are left out. *)
Definition module_init (env : init_env) (cfg : config)
    (st : module_state) (res : resources) : init_result :=
  if negb (eciNew_ok env) then
    mkInitResult (-1) (set_handle false st) res [eciNew]
  else if negb (malloc_ok env) then
    mkInitResult (-1) (set_handle false st)
                 (mkResources false (dictHandle res)) [eciNew; eciDelete]
  else if negb (eciSetOutputBuffer_ok env) then
    mkInitResult (-1) (set_handle false st)
                 (mkResources false (dictHandle res))
                 [eciNew; eciRegisterCallback;
                  eciSetOutputBuffer (audio_buffer_size st);
                  free_audio_buffer; eciDelete]
  else
    let st := set_rate (rate_of_code (sample_rate_read_back env)) (set_handle true st) in
    let any_dict :=
      negb (is_empty (cfg_dict cfg config_main_dict))
      || negb (is_empty (cfg_dict cfg config_root_dict))
      || negb (is_empty (cfg_dict cfg config_abbrev_dict)) in
    let dict_calls :=
      if any_dict then
        eciNewDict ::
        (if eciNewDict_ok env then
           load_dict_call cfg config_main_dict eciMainDict
           ++ load_dict_call cfg config_root_dict eciRootDict
           ++ load_dict_call cfg config_abbrev_dict eciAbbvDict
           ++ [eciSetDict]
         else [])
      else [] in
    mkInitResult 0 st
      (mkResources true (if any_dict then eciNewDict_ok env else dictHandle res))
      ([eciNew; eciRegisterCallback; eciSetOutputBuffer (audio_buffer_size st);
        eciSetParam eciSampleRate (cfg_int cfg config_sample_rate);
        eciGetParam eciSampleRate]
       ++ voice_param_call cfg config_pitch_baseline eciPitchBaseline
       ++ voice_param_call cfg config_pitch_fluctuation eciPitchFluctuation
       ++ voice_param_call cfg config_speed eciSpeed
       ++ voice_param_call cfg config_volume eciVolume
       ++ voice_param_call cfg config_head_size eciHeadSize
       ++ voice_param_call cfg config_roughness eciRoughness
       ++ voice_param_call cfg config_breathiness eciBreathiness
       ++ (if negb (cfg_int cfg config_voice =? 0)
           then [eciCopyVoice (cfg_int cfg config_voice) 0] else [])
       ++ global_param_call cfg config_phrase_prediction eciPhrasePrediction
       ++ global_param_call cfg config_number_mode eciNumberMode
       ++ global_param_call cfg config_text_mode eciTextMode
       ++ global_param_call cfg config_real_world_units eciRealWorldUnits
       ++ dict_calls).

(** [module_close]: the module state, the resources and the calls made; the
    function returns 0. *)
Definition module_close (st : module_state) (res : resources)
  : module_state * resources * list engine_call :=
  let dict_calls := if dictHandle res && eciHandle st then [eciDeleteDict] else [] in
  let dict := if dictHandle res && eciHandle st then false else dictHandle res in
  let handle_calls := if eciHandle st then [eciDelete] else [] in
  let buffer_calls := if audio_buffer res then [free_audio_buffer] else [] in
  let samples_calls :=
    match samples (audio_data st) with Some _ => [free_samples] | None => [] end in
  (set_audio (mkAudioData None 0 0) (set_handle false st),
   mkResources false dict,
   dict_calls ++ handle_calls ++ buffer_calls ++ samples_calls).

(** [voice_name_table]. *)
Definition voice_name_table : list string :=
  ["Wade"; "Flo"; "Bobbie"; "Male2"; "Male3"; "Female2"; "Grandma"; "Grandpa"]%string.

(** The name [module_list_voices] reports, [voice_name_table[config_voice]],
    when the index is within the table. *)
Definition listed_voice_name (cfg : config) : option string :=
  if cfg_int cfg config_voice <? 0 then None
  else nth_error voice_name_table (Z.to_nat (cfg_int cfg config_voice)).

(** The values each configuration variable may hold: its initial value or
    a value within the range the source accepts for it. *)
Definition allowed (v : config_var) (x : Z) : Prop :=
  match v with
  | config_sample_rate => 0 <= x <= 2
  | config_voice => 0 <= x <= 7
  | config_speed => x = -1 \/ 0 <= x <= 250
  | config_phrase_prediction => 0 <= x <= 1
  | config_number_mode | config_text_mode => -1 <= x
  | config_real_world_units => -1 <= x <= 1
  | _ => x = -1 \/ 0 <= x <= 100
  end.

(** Every variable holds an allowed value and every dictionary path fits
    its buffer of 256 bytes with its NUL. *)
Definition config_ok (cfg : config) : Prop :=
  (forall v, allowed v (cfg_int cfg v)) /\
  (forall d, (length (cfg_dict cfg d) < 256)%nat /\
             Forall (fun c => c <> 0) (cfg_dict cfg d)).

Definition settings_ok (s : voice_settings) : Prop :=
  0 <= current_rate s <= 250 /\
  0 <= current_pitch s <= 100 /\
  0 <= current_volume s <= 100.

(** The arguments of a call are within what the engine documents: voices
    0 to 7, voice parameters 0 to 100 (speed 0 to 250), the sample-rate code
    0 to 2, no negative global parameter, a non-empty dictionary path that
    fits its buffer. *)
Definition call_in_range (c : engine_call) : Prop :=
  match c with
  | eciSetVoiceParam voice p v =>
      0 <= voice <= 7 /\ 0 <= v /\
      v <= match p with eciSpeed => 250 | _ => 100 end
  | eciSetParam eciSampleRate v => 0 <= v <= 2
  | eciSetParam _ v => 0 <= v
  | eciCopyVoice from to => 1 <= from <= 7 /\ to = 0
  | eciLoadDict _ path => path <> [] /\ (length path < 256)%nat
  | _ => True
  end.

(** A word as [%63s] reads it whole: not empty, at most 63 bytes, no white
    space and no NUL. *)
Definition is_word (w : list Z) : bool :=
  negb (is_empty w) && (length w <=? 63)%nat
  && forallb (fun c => negb ((c =? 0) || is_space c)) w.



(** * Properties *)

(** ** Worked examples from the specification *)

Example strip_entity_example :
  strip_ssml (bytes_of_string "a &amp; b") = bytes_of_string "a & b".
Proof. reflexivity. Qed.

Example strip_tag_example :
  strip_ssml (bytes_of_string "<b>hi</b> there") = bytes_of_string "hi there".
Proof. reflexivity. Qed.

Example sanitize_colon_example :
  sanitize_for_viavoice (bytes_of_string "Hello world! Price: ")
  = bytes_of_string "Hello world! Price, ".
Proof. reflexivity. Qed.

(** ** List facts *)

Lemma drop_while_Forall (Q : Z -> Prop) f l :
  Forall Q l -> Forall Q (drop_while f l).
Proof.
  induction 1 as [| c rest Hc Hrest IH]; simpl; [constructor |].
  destruct (f c); [exact IH | constructor; assumption].
Qed.

(** ** The sanitizer's loop invariant *)

Section SanitizeInvariant.

Variable Q : Z -> Prop.
Hypothesis Q_comma : Q 44.
Hypothesis Q_space : Q 32.
Hypothesis Q_safe : forall c, is_safe_char c = true -> Q c.
Hypothesis Q_words :
  Forall Q (bytes_of_string "pound" ++ bytes_of_string "cent" ++
            bytes_of_string "yen" ++ bytes_of_string "euro").

Lemma clause_break_Forall src dst :
  Forall Q dst -> Forall Q (snd (clause_break src dst)).
Proof.
  intros H. unfold clause_break. cbn [snd].
  constructor; [exact Q_space |].
  pose proof (drop_while_Forall Q is_blank dst H) as Hd.
  destruct (drop_while is_blank dst); [constructor |].
  constructor; [exact Q_comma | exact Hd].
Qed.

Lemma currency_word_Forall b w : currency_word b = Some w -> Forall Q w.
Proof.
  unfold currency_word. intros H.
  repeat rewrite Forall_app in Q_words.
  destruct Q_words as (Hp & Hc & Hy & _).
  destruct (b =? 163); [injection H as <-; exact Hp |].
  destruct (b =? 162); [injection H as <-; exact Hc |].
  destruct (b =? 165); [injection H as <-; exact Hy | discriminate].
Qed.

Lemma emit_word_Forall w dst :
  Forall Q w -> Forall Q dst -> Forall Q (emit_word w dst).
Proof.
  intros Hw Hd. unfold emit_word. apply Forall_app. split; [| exact Hd].
  apply Forall_rev. exact Hw.
Qed.

Lemma sanitize_step_Forall src dst :
  Forall Q dst -> Forall Q (snd (sanitize_step src dst)).
Proof.
  intros H. unfold sanitize_step.
  destruct (deref src <? 128).
  - destruct (is_safe_char (deref src)) eqn:Es.
    + cbn [snd]. constructor; [apply Q_safe; exact Es | exact H].
    + destruct (is_clause_break (deref src)).
      * apply clause_break_Forall; exact H.
      * cbn [snd]. constructor; [exact Q_space | exact H].
  - destruct (negb (seq_valid src (seqlen_of (deref src)))); [exact H |].
    destruct (if (seqlen_of (deref src) =? 2)%nat && (deref src =? 194)
              then currency_word (nth 1 src 0) else None) as [w |] eqn:Ew.
    + cbn [snd]. apply emit_word_Forall; [| exact H].
      destruct ((seqlen_of (deref src) =? 2)%nat && (deref src =? 194));
        [| discriminate].
      eapply currency_word_Forall; exact Ew.
    + match goal with |- context [if ?b then _ else _] => destruct b end.
      * cbn [snd]. apply emit_word_Forall; [| exact H].
        repeat rewrite Forall_app in Q_words. tauto.
      * match goal with |- context [if ?b then _ else _] => destruct b end.
        -- apply clause_break_Forall; exact H.
        -- cbn [snd]. constructor; [exact Q_space | exact H].
Qed.

Lemma sanitize_loop_Forall src dst :
  Forall Q dst -> Forall Q (sanitize_loop src dst).
Proof.
  funelim (sanitize_loop src dst); intros Hd; [exact Hd |].
  destruct (c =? 0); [exact Hd |].
  match goal with IH : _ -> Forall Q (sanitize_loop _ _) |- _ => apply IH end.
  apply sanitize_step_Forall; exact Hd.
Qed.

End SanitizeInvariant.

Lemma is_safe_char_declared c : is_safe_char c = true -> declared_safe c.
Proof.
  unfold is_safe_char, declared_safe. intros H.
  repeat (apply orb_prop in H; destruct H as [H | H]);
    try (apply andb_prop in H; destruct H as [H1 H2];
         apply Z.leb_le in H1; apply Z.leb_le in H2; auto);
    try (apply Z.eqb_eq in H; subst c; right; right; right; simpl; tauto).
Qed.

Lemma declared_safe_ascii c :
  declared_safe c -> 0 < c < 128 /\ c <> 60 /\ c <> 62 /\ c <> 38.
Proof.
  unfold declared_safe. simpl. intros H. lia.
Qed.

(** C9: every byte of the string [sanitize_for_viavoice] returns lies in the
    declared safe set (letters, digits, space, tab, newline, [. , ! ? $ ']);
    in particular it is a non-NUL ASCII byte, never a byte of 0x80 or above,
    and never one of the markup bytes [<], [>], [&]. *)
Theorem sanitize_output_in_safe_set (text : list Z) :
  Forall (fun c => declared_safe c /\ 0 < c < 128 /\ c <> 60 /\ c <> 62 /\ c <> 38)
         (sanitize_for_viavoice text).
Proof.
  unfold sanitize_for_viavoice. apply Forall_rev.
  apply sanitize_loop_Forall.
  - split; [| apply declared_safe_ascii]; unfold declared_safe; simpl; tauto.
  - split; [| apply declared_safe_ascii]; unfold declared_safe; simpl; tauto.
  - intros c Hc. apply is_safe_char_declared in Hc.
    split; [exact Hc | apply declared_safe_ascii; exact Hc].
  - apply Forall_forall. intros c Hc.
    assert (Hs : is_safe_char c = true).
    { revert c Hc. apply forallb_forall. vm_compute. reflexivity. }
    apply is_safe_char_declared in Hs.
    split; [exact Hs | apply declared_safe_ascii; exact Hs].
  - constructor.
Qed.

(** ** The sanitizer on concrete inputs *)

(** C1: on the two-byte input for the pound sign the function stores the
    five bytes of "pound" and the terminating NUL, six bytes, into the
    five-byte buffer it allocated: the output is longer than twice the
    input. *)
Theorem sanitize_pound_exceeds_buffer :
  sanitize_for_viavoice [194; 163] = bytes_of_string "pound" /\
  sanitize_bytes_written [194; 163] = 6 /\
  sanitize_buffer_size [194; 163] = 5 /\
  Z.of_nat (length (sanitize_for_viavoice [194; 163])) > 2 * Z.of_nat (length [194; 163]).
Proof. vm_compute. repeat split; reflexivity. Qed.

(** C3, as claimed, fails: the result on "wait; really?" is not
    "wait, really ". *)
Lemma sanitize_wait_really_not_claimed :
  sanitize_for_viavoice (bytes_of_string "wait; really?")
  <> bytes_of_string "wait, really ".
Proof. vm_compute. discriminate. Qed.

(** C3, amended: on "wait; really?" the result is exactly "wait, really?":
    the semicolon and the space after it become ", " and the question mark,
    a pass-through character, is kept. *)
Theorem sanitize_wait_really :
  sanitize_for_viavoice (bytes_of_string "wait; really?")
  = bytes_of_string "wait, really?".
Proof. vm_compute. reflexivity. Qed.

(** ** The callback *)

(** C8: with [stop_requested] set when the invocation begins, the callback
    returns [eciDataNotProcessed] and leaves the whole module state, the
    audio buffer and its counters included, as it was. *)
Theorem callback_refuses_when_stopped (st : module_state) (inv : invocation) :
  stop_requested st = true ->
  eci_callback st inv = (st, eciDataNotProcessed).
Proof.
  intros Hstop. unfold eci_callback. rewrite Hstop. reflexivity.
Qed.

Lemma callback_refuses_when_stopped_witness :
  stop_requested (module_stop initial_state) = true /\
  eci_callback (module_stop initial_state) (waveform 3 [1; 2; 3] true)
  = (module_stop initial_state, eciDataNotProcessed).
Proof.
  split; [reflexivity |].
  apply (callback_refuses_when_stopped (module_stop initial_state)
           (waveform 3 [1; 2; 3] true)).
  reflexivity.
Defined.

(** C10: for a message other than [eciWaveformBuffer], with the flag clear,
    the callback leaves the module state unchanged and returns
    [eciDataProcessed]. *)
Theorem callback_ignores_other_messages (st : module_state) (inv : invocation) :
  inv_msg inv <> eciWaveformBuffer ->
  stop_requested st = false ->
  eci_callback st inv = (st, eciDataProcessed) /\
  samples (audio_data (fst (eci_callback st inv))) = samples (audio_data st) /\
  num_samples (audio_data (fst (eci_callback st inv))) = num_samples (audio_data st) /\
  allocated (audio_data (fst (eci_callback st inv))) = allocated (audio_data st).
Proof.
  intros Hmsg Hstop.
  assert (E : eci_callback st inv = (st, eciDataProcessed)).
  { unfold eci_callback. rewrite Hstop.
    destruct (inv_msg inv); try reflexivity. contradiction Hmsg; reflexivity. }
  rewrite E. repeat split.
Qed.

Lemma callback_ignores_other_messages_witness :
  eci_callback initial_state (mkInvocation eciIndexReply 4 [1; 2] true)
  = (initial_state, eciDataProcessed).
Proof.
  apply (callback_ignores_other_messages initial_state
           (mkInvocation eciIndexReply 4 [1; 2] true)).
  - simpl. discriminate.
  - reflexivity.
Defined.

(** The statement-level machine agrees with [eci_callback] when nothing
    runs in between. *)
Lemma cb_steps_uninterrupted (st : module_state) (inv : invocation) :
  cb_steps 4 inv st AtCheck
  = (fst (eci_callback st inv), Returned (snd (eci_callback st inv))).
Proof.
  unfold eci_callback. simpl.
  destruct (stop_requested st); [reflexivity |].
  destruct (ECIMessage_eqb (inv_msg inv) eciWaveformBuffer); [| reflexivity].
  simpl. destruct (collect _ inv _) as [ad r]. reflexivity.
Qed.

(** ** Allocation failure *)

(** What the locked region does when the buffer must grow and [realloc]
    fails: the counters stay, the pointer becomes NULL. *)
Lemma collect_realloc_failure (size : Z) (inv : invocation) (ad : AudioData) :
  num_samples ad + inv_param inv > allocated ad ->
  inv_realloc_ok inv = false ->
  collect size inv ad
  = (mkAudioData None (num_samples ad) (allocated ad), eciDataNotProcessed).
Proof.
  intros Hgrow Hfail. unfold collect.
  destruct (num_samples ad + inv_param inv >? allocated ad) eqn:E.
  - unfold realloc. rewrite Hfail. reflexivity.
  - rewrite Z.gtb_ltb in E. apply Z.ltb_ge in E. lia.
Qed.

(** C7: after two full fragments (40000 samples collected) a third
    callback needs the buffer to grow and [realloc] fails.  The callback
    drops the fragment and returns [eciDataNotProcessed], but it has stored
    the NULL result over [audio_data.samples] while keeping
    [num_samples = 40000]; [module_speak_sync] then hands the host a track
    of 40000 samples whose sample pointer is NULL, not the samples
    collected before the failure. *)
Theorem realloc_failure_loses_collected_audio :
  let failing := waveform 1 (repeat 9 (Z.to_nat 20000)) false in
  num_samples (audio_data state_before_failure) = 40000 /\
  allocated (audio_data state_before_failure) = 40000 /\
  option_map (fun blk => (nth 0 blk Undef, nth (Z.to_nat 39999) blk Undef))
             (samples (audio_data state_before_failure))
  = Some (Sample 7, Sample 8) /\
  snd (eci_callback state_before_failure failing) = eciDataNotProcessed /\
  audio_data (fst (eci_callback state_before_failure failing))
  = mkAudioData None 40000 40000 /\
  delivered (snd (module_speak_sync engine_realloc_fails initial_state
                    (bytes_of_string "hello") SPD_MSGTYPE_TEXT))
  = [mkTrack 16 1 22050 40000 None].
Proof.
  vm_compute. repeat split; reflexivity.
Qed.

(** ** Character and key announcements *)

(** C6, as claimed, fails: for a single-character utterance "&amp;" the
    engine is not handed the five raw bytes but the decoded "&". *)
Lemma char_utterance_not_raw :
  submitted (snd (module_speak_sync silent_engine initial_state
                    (bytes_of_string "&amp;") SPD_MSGTYPE_CHAR))
  = [bytes_of_string "&"] /\
  submitted (snd (module_speak_sync silent_engine initial_state
                    (bytes_of_string "&amp;") SPD_MSGTYPE_CHAR))
  <> [bytes_of_string "&amp;"].
Proof. vm_compute. split; [reflexivity | discriminate]. Qed.

(** C6, amended: for a single-character or key-name utterance the text
    handed to [eciAddText] is the output of [strip_ssml] on the raw bytes
    (tags removed, entities decoded, trimmed) with no sanitization applied;
    when that output is empty, or there is no engine handle, nothing is
    submitted. *)
Theorem char_key_text_is_stripped_only
    (eng : engine) (st : module_state) (data : list Z) (msgtype : SPDMessageType) :
  msgtype = SPD_MSGTYPE_CHAR \/ msgtype = SPD_MSGTYPE_KEY ->
  submitted (snd (module_speak_sync eng st data msgtype))
  = if eciHandle st && negb (is_empty (strip_ssml data))
    then [strip_ssml data] else [].
Proof.
  intros Hkind.
  assert (Hw : wants_sanitize msgtype = false)
    by (destruct Hkind; subst; reflexivity).
  unfold module_speak_sync. rewrite Hw.
  destruct (eciHandle st); [| reflexivity].
  destruct (is_empty (strip_ssml data)); [reflexivity |].
  cbn [negb andb].
  destruct (add_text_ok eng); [| reflexivity].
  destruct (synthesize_ok eng); [| reflexivity].
  cbn [negb].
  match goal with |- context [stop_requested ?s] => destruct (stop_requested s) end;
    [reflexivity |].
  match goal with |- context [num_samples ?a >? 0] => destruct (num_samples a >? 0) end;
    reflexivity.
Qed.

Lemma char_key_text_is_stripped_only_witness :
  submitted (snd (module_speak_sync silent_engine initial_state
                    (bytes_of_string " <x>&lt;; ") SPD_MSGTYPE_KEY))
  = [bytes_of_string "<;"].
Proof.
  exact (char_key_text_is_stripped_only silent_engine initial_state
           (bytes_of_string " <x>&lt;; ") SPD_MSGTYPE_KEY (or_intror eq_refl)).
Defined.

(** ** Cancellation against a running callback *)

(** C2, as claimed, fails: the invocation passes its check, the stop request
    then sets the flag, and the invocation still appends its fragment. *)
Lemma fragment_appended_after_stop :
  let at_stop := run [Cb; Cb; Stop] one_fragment_system in
  let later := run [Cb; Cb] at_stop in
  stop_requested (sys_state at_stop) = true /\
  num_samples (audio_data (sys_state at_stop)) = 0 /\
  num_samples (audio_data (sys_state later)) = 2 /\
  audio_data (sys_state later) <> audio_data (sys_state at_stop).
Proof.
  cbv zeta. repeat split; try (vm_compute; reflexivity).
  intros H. apply (f_equal num_samples) in H. vm_compute in H. discriminate H.
Qed.

(** A stop request never clears the flag, and no statement of the callback
    writes it. *)
Lemma sys_step_keeps_stop (a : actor) (s : system) :
  stop_requested (sys_state s) = true ->
  stop_requested (sys_state (sys_step a s)) = true.
Proof.
  destruct s as [st cur pend]. simpl.
  intros H. destruct a; simpl; [| reflexivity].
  destruct cur as [[inv p] |].
  - destruct p; simpl; try exact H.
    + rewrite H. exact H.
    + destruct (collect _ inv _); exact H.
  - destruct pend; exact H.
Qed.

(** With the flag set and no invocation past its check, a step changes
    nothing in [audio_data] and leaves no invocation past its check. *)
Lemma sys_step_stopped (a : actor) (s : system) :
  stop_requested (sys_state s) = true ->
  before_check s = true ->
  before_check (sys_step a s) = true /\
  audio_data (sys_state (sys_step a s)) = audio_data (sys_state s).
Proof.
  destruct s as [st cur pend]. unfold before_check. simpl.
  intros Hstop Hbc. destruct a; simpl; [| split; [exact Hbc | reflexivity]].
  destruct cur as [[inv p] |].
  - destruct p; try discriminate; simpl.
    + rewrite Hstop. simpl. split; reflexivity.
    + split; reflexivity.
  - destruct pend; simpl; split; reflexivity.
Qed.

(** C2, amended: once [stop_requested] is set while no invocation is between
    its check of the flag and its return, no interleaving of callback
    statements and stop requests changes [audio_data]: every invocation that
    checks the flag afterwards appends nothing. *)
Theorem no_append_once_stop_seen (sched : list actor) (s : system) :
  stop_requested (sys_state s) = true ->
  before_check s = true ->
  audio_data (sys_state (run sched s)) = audio_data (sys_state s).
Proof.
  revert s. induction sched as [| a sched IH]; intros s Hstop Hbc; [reflexivity |].
  unfold run in *. simpl.
  destruct (sys_step_stopped a s Hstop Hbc) as [Hbc' Had].
  rewrite IH; [exact Had | apply sys_step_keeps_stop; exact Hstop | exact Hbc'].
Qed.

Lemma no_append_once_stop_seen_witness :
  let s := run [Stop; Cb] one_fragment_system in
  audio_data (sys_state (run [Cb; Cb; Stop; Cb; Cb] s)) = audio_data (sys_state s).
Proof.
  exact (no_append_once_stop_seen [Cb; Cb; Stop; Cb; Cb]
           (run [Stop; Cb] one_fragment_system) eq_refl eq_refl).
Defined.

(** ** The markup stripper *)

(** *** Trimming in place is trimming *)

Lemma drop_while_split f l :
  exists p, l = p ++ drop_while f l /\ forallb f p = true.
Proof.
  induction l as [| c rest IH]; simpl.
  - exists []. split; reflexivity.
  - destruct (f c) eqn:E.
    + destruct IH as (p & Hp & Hall). exists (c :: p). simpl.
      rewrite E, Hall. split; [f_equal; exact Hp | reflexivity].
    + exists []. split; reflexivity.
Qed.

Lemma drop_while_head f l : drop_while f l = [] \/ f (hd 0 (drop_while f l)) = false.
Proof.
  induction l as [| c rest IH]; simpl; [left; reflexivity |].
  destruct (f c) eqn:E; [exact IH | right; exact E].
Qed.

Lemma drop_while_fixed f l : l = [] \/ f (hd 0 l) = false -> drop_while f l = l.
Proof.
  destruct l as [| c rest]; simpl; [reflexivity |].
  intros [H | H]; [discriminate | rewrite H; reflexivity].
Qed.

Lemma skipn_skip_leading l : skipn (skip_leading l) l = drop_while is_trim_ws l.
Proof.
  induction l as [| c rest IH]; simpl; [reflexivity |].
  destruct (is_trim_ws c); [exact IH | reflexivity].
Qed.

Lemma skip_leading_length l :
  length l = (skip_leading l + length (drop_while is_trim_ws l))%nat.
Proof.
  induction l as [| c rest IH]; simpl; [reflexivity |].
  destruct (is_trim_ws c); simpl; lia.
Qed.

Lemma nth_skip_leading l n :
  nth (skip_leading l + n) l 0 = nth n (drop_while is_trim_ws l) 0.
Proof.
  induction l as [| c rest IH]; simpl; [destruct n; reflexivity |].
  destruct (is_trim_ws c); [exact IH | reflexivity].
Qed.

Lemma scan_back_le l s e : (scan_back l s e <= e)%nat.
Proof.
  induction e as [| e IH]; simpl; [lia |].
  destruct ((s <? S e)%nat && is_trim_ws (nth (S e) l 0)); lia.
Qed.

Lemma scan_back_app l x s e :
  (e < length l)%nat -> scan_back (l ++ x) s e = scan_back l s e.
Proof.
  induction e as [| e IH]; intros He; simpl; [reflexivity |].
  rewrite app_nth1 by exact He. rewrite IH by lia. reflexivity.
Qed.

(** The backward scan over [l] from offset [start + n] is the scan over the
    part of [l] that follows the leading whitespace. *)
Lemma scan_back_shift l n :
  scan_back l (skip_leading l) (skip_leading l + n)
  = (skip_leading l + scan_back (drop_while is_trim_ws l) 0 n)%nat.
Proof.
  induction n as [| n IH].
  - rewrite Nat.add_0_r.
    destruct (skip_leading l) as [| s]; [reflexivity |].
    cbn [scan_back]. rewrite Nat.ltb_irrefl. cbn [andb]. lia.
  - replace (skip_leading l + S n)%nat with (S (skip_leading l + n)) by lia.
    cbn [scan_back].
    replace (nth (S (skip_leading l + n)) l 0)
      with (nth (S n) (drop_while is_trim_ws l) 0)
      by (rewrite <- nth_skip_leading; f_equal; lia).
    replace (skip_leading l <? S (skip_leading l + n))%nat with true
      by (symmetry; apply Nat.ltb_lt; lia).
    replace (0 <? S n)%nat with true by reflexivity.
    cbn [andb].
    destruct (is_trim_ws (nth (S n) (drop_while is_trim_ws l) 0)); [exact IH | lia].
Qed.

(** On a text that does not start with whitespace, cutting after the offset
    the backward scan stops at removes exactly the trailing whitespace. *)
Lemma scan_back_trims m :
  m <> [] -> is_trim_ws (hd 0 m) = false ->
  firstn (S (scan_back m 0 (length m - 1))) m
  = rev (drop_while is_trim_ws (rev m)).
Proof.
  induction m as [| z m0 IH] using rev_ind; intros Hne Hhd; [contradiction |].
  rewrite length_app. simpl length.
  replace (length m0 + 1 - 1)%nat with (length m0) by lia.
  rewrite rev_app_distr. simpl rev. simpl app. cbn [drop_while].
  destruct (is_trim_ws z) eqn:Ez.
  - destruct m0 as [| c m1]; [simpl in Hhd; congruence |].
    cbn [length scan_back].
    replace (nth (S (length m1)) ((c :: m1) ++ [z]) 0) with z
      by (rewrite app_nth2 by (simpl; lia); simpl length;
          rewrite Nat.sub_diag; reflexivity).
    rewrite Ez. cbn [Nat.ltb Nat.leb andb].
    rewrite scan_back_app by (simpl; lia).
    rewrite firstn_app.
    pose proof (scan_back_le (c :: m1) 0 (length m1)) as Hle.
    replace (S (scan_back (c :: m1) 0 (length m1)) - length (c :: m1))%nat
      with 0%nat by (simpl; lia).
    rewrite firstn_O, app_nil_r.
    replace (length m1) with (length (c :: m1) - 1)%nat at 1 by (simpl; lia).
    apply IH; [discriminate | exact Hhd].
  - cbn [rev]. rewrite rev_involutive.
    assert (Hs : scan_back (m0 ++ [z]) 0 (length m0) = length m0).
    { destruct (length m0) as [| k] eqn:Ek; [reflexivity |].
      cbn [scan_back].
      replace (nth (S k) (m0 ++ [z]) 0) with z
        by (rewrite app_nth2 by lia; rewrite Ek, Nat.sub_diag; reflexivity).
      rewrite Ez, andb_false_r. reflexivity. }
    rewrite Hs.
    rewrite firstn_all2 by (rewrite length_app; simpl; lia).
    reflexivity.
Qed.

(** The pointer arithmetic at the end of [strip_ssml] computes [trim]. *)
Lemma trim_in_place_is_trim l : trim_in_place l = trim l.
Proof.
  unfold trim_in_place, trim.
  destruct (length l =? 0)%nat eqn:Ej.
  - apply Nat.eqb_eq in Ej. apply length_zero_iff_nil in Ej. subst l. reflexivity.
  - apply Nat.eqb_neq in Ej.
    pose proof (skip_leading_length l) as Hlen.
    assert (Hres :
      skipn (skip_leading l)
            (firstn (S (scan_back l (skip_leading l) (length l - 1))) l)
      = rev (drop_while is_trim_ws (rev (drop_while is_trim_ws l)))).
    { destruct (drop_while is_trim_ws l) as [| c m'] eqn:Em.
      - simpl in Hlen. cbn [drop_while rev].
        apply skipn_all2. rewrite length_firstn.
        pose proof (scan_back_le l (skip_leading l) (length l - 1)). lia.
      - replace (length l - 1)%nat with (skip_leading l + length m')%nat
          by (simpl in Hlen; lia).
        rewrite scan_back_shift, Em.
        rewrite skipn_firstn_comm.
        replace (S (skip_leading l + scan_back (c :: m') 0 (length m')) - skip_leading l)%nat
          with (S (scan_back (c :: m') 0 (length m'))) by lia.
        rewrite skipn_skip_leading, Em.
        replace (length m') with (length (c :: m') - 1)%nat at 1 by (simpl; lia).
        apply scan_back_trims; [discriminate |].
        destruct (drop_while_head is_trim_ws l) as [H | H];
          rewrite Em in H; [discriminate | exact H]. }
    destruct (skip_leading l =? 0)%nat eqn:Es; [| exact Hres].
    apply Nat.eqb_eq in Es. rewrite Es in Hres |- *. exact Hres.
Qed.

Lemma trim_Forall (Q : Z -> Prop) l : Forall Q l -> Forall Q (trim l).
Proof.
  intros H. unfold trim.
  apply Forall_rev, drop_while_Forall, Forall_rev, drop_while_Forall. exact H.
Qed.

Lemma trim_idempotent l : trim (trim l) = trim l.
Proof.
  unfold trim.
  set (m := drop_while is_trim_ws l).
  set (q := rev (drop_while is_trim_ws (rev m))).
  assert (Hq : drop_while is_trim_ws q = q).
  { apply drop_while_fixed.
    destruct (drop_while_split is_trim_ws (rev m)) as (t & Ht & _).
    assert (Hm : m = q ++ rev t).
    { unfold q. rewrite <- rev_app_distr, <- Ht, rev_involutive. reflexivity. }
    destruct q as [| c q']; [left; reflexivity | right].
    rewrite Hm in *. simpl.
    destruct (drop_while_head is_trim_ws l) as [H | H]; fold m in H;
      rewrite Hm in H; [discriminate | exact H]. }
  rewrite Hq. unfold q. rewrite rev_involutive.
  rewrite (drop_while_fixed is_trim_ws (drop_while is_trim_ws (rev m)));
    [reflexivity | apply drop_while_head].
Qed.

(** *** Tag removal and entity decoding on text without markup *)

Lemma strip_tags_without_lt text :
  ~ In 60 text -> strip_tags text false = remove_byte 62 text.
Proof.
  induction text as [| c rest IH]; intros Hlt; simpl; [reflexivity |].
  assert (Hc : c <> 60) by (intros ->; apply Hlt; left; reflexivity).
  assert (Hrest : ~ In 60 rest) by (intros H; apply Hlt; right; exact H).
  apply Z.eqb_neq in Hc. rewrite Hc.
  destruct (c =? 62); simpl; rewrite IH by exact Hrest; reflexivity.
Qed.

Lemma decode_without_amp l :
  ~ In 38 l -> decode_xml_entities l = c_str l.
Proof.
  induction l as [| c rest IH]; intros Hamp; simp decode_xml_entities;
    [reflexivity |].
  assert (Hc : c <> 38) by (intros ->; apply Hamp; left; reflexivity).
  assert (Hrest : ~ In 38 rest) by (intros H; apply Hamp; right; exact H).
  simpl c_str. destruct (c =? 0); [reflexivity |].
  unfold decode_step. cbn [deref hd tl].
  apply Z.eqb_neq in Hc. rewrite Hc. cbn [fst snd].
  rewrite IH by exact Hrest. reflexivity.
Qed.

Lemma c_str_remove_byte b l :
  b <> 0 -> c_str (remove_byte b l) = remove_byte b (c_str l).
Proof.
  intros Hb. induction l as [| c rest IH]; simpl; [reflexivity |].
  destruct (c =? 0) eqn:E0.
  - apply Z.eqb_eq in E0. subst c.
    replace (0 =? b) with false by (symmetry; apply Z.eqb_neq; lia).
    simpl. reflexivity.
  - destruct (c =? b) eqn:Eb; simpl; rewrite Eb; simpl; [exact IH |].
    rewrite E0. f_equal. exact IH.
Qed.

Lemma remove_byte_absent b l : ~ In b l -> remove_byte b l = l.
Proof.
  induction l as [| c rest IH]; intros Hb; simpl; [reflexivity |].
  assert (Hc : c <> b) by (intros ->; apply Hb; left; reflexivity).
  apply Z.eqb_neq in Hc. rewrite Hc. simpl. f_equal.
  apply IH. intros H; apply Hb; right; exact H.
Qed.

Lemma c_str_without_nul l : Forall (fun c => c <> 0) l -> c_str l = l.
Proof.
  induction 1 as [| c rest Hc Hrest IH]; simpl; [reflexivity |].
  apply Z.eqb_neq in Hc. rewrite Hc, IH. reflexivity.
Qed.

Lemma find_entity_ch src e : find_entity src = Some e -> ent_ch e <> 0.
Proof.
  unfold find_entity. intros H. apply find_some in H. destruct H as [Hin _].
  simpl in Hin.
  repeat (destruct Hin as [<- | Hin]; [simpl; lia |]). destruct Hin.
Qed.

(** The decoded text is a C string: it holds no NUL. *)
Lemma decode_without_nul l : Forall (fun c => c <> 0) (decode_xml_entities l).
Proof.
  funelim (decode_xml_entities l); [constructor |].
  destruct (c =? 0) eqn:E0; [constructor |].
  apply Z.eqb_neq in E0.
  constructor; [| match goal with IH : Forall _ _ |- _ => exact IH end].
  unfold decode_step. cbn [deref hd].
  destruct (c =? 38); [| exact E0].
  destruct (find_entity (c :: rest)) as [e |] eqn:Ee; [| exact E0].
  cbn [fst]. eapply find_entity_ch; exact Ee.
Qed.

Lemma strip_ssml_without_nul text : Forall (fun c => c <> 0) (strip_ssml text).
Proof.
  unfold strip_ssml. rewrite trim_in_place_is_trim.
  apply trim_Forall, decode_without_nul.
Qed.

(** What [strip_ssml] does to a text without [<] and [&]. *)
Lemma strip_ssml_plain text :
  ~ In 60 text -> ~ In 38 text ->
  strip_ssml text = trim (remove_byte 62 (c_str text)).
Proof.
  intros Hlt Hamp. unfold strip_ssml.
  rewrite trim_in_place_is_trim, strip_tags_without_lt by exact Hlt.
  rewrite decode_without_amp.
  - rewrite c_str_remove_byte by lia. reflexivity.
  - unfold remove_byte. intros H. apply filter_In in H. apply Hamp, H.
Qed.

(** C4, as claimed, fails: [>] is not retained. *)
Lemma strip_drops_gt :
  ~ In 60 (bytes_of_string "a>b") /\ ~ In 38 (bytes_of_string "a>b") /\
  strip_ssml (bytes_of_string "a>b") = bytes_of_string "ab" /\
  strip_ssml (bytes_of_string "a>b") <> trim (bytes_of_string "a>b").
Proof.
  repeat split; try (vm_compute; reflexivity);
    vm_compute; intros H; repeat (destruct H as [H | H]; try discriminate H);
    try discriminate H; try contradiction.
Qed.

(** An embedded NUL ends the text: the result is handled as a C string. *)
Example strip_cuts_at_nul : strip_ssml [97; 0; 98] = [97].
Proof. reflexivity. Qed.

(** C4, amended: on an input without [<] and [&], [strip_ssml] returns the
    input, cut at its first NUL if it has one, with every [>] removed and
    leading and trailing space, tab and newline trimmed; all other bytes are
    kept as they are, in order. *)
Theorem strip_ssml_without_markup (text : list Z) :
  ~ In 60 text -> ~ In 38 text ->
  strip_ssml text = trim (remove_byte 62 (c_str text)).
Proof. exact (strip_ssml_plain text). Qed.

Lemma strip_ssml_without_markup_witness :
  strip_ssml (bytes_of_string "  2 > 1 ok ")
  = trim (remove_byte 62 (c_str (bytes_of_string "  2 > 1 ok "))).
Proof.
  apply (strip_ssml_without_markup (bytes_of_string "  2 > 1 ok ")).
  - vm_compute. intros H. repeat (destruct H as [H | H]; [discriminate H |]). exact H.
  - vm_compute. intros H. repeat (destruct H as [H | H]; [discriminate H |]). exact H.
Defined.

(** C5, as claimed, fails: decoding produces markup that a second pass
    removes. *)
Lemma strip_not_idempotent :
  strip_ssml (bytes_of_string "&lt;b&gt;") = bytes_of_string "<b>" /\
  strip_ssml (strip_ssml (bytes_of_string "&lt;b&gt;")) = [] /\
  strip_ssml (strip_ssml (bytes_of_string "&lt;b&gt;"))
  <> strip_ssml (bytes_of_string "&lt;b&gt;").
Proof. vm_compute. repeat split; try reflexivity. discriminate. Qed.

(** C5, amended: whenever the output of [strip_ssml] holds none of the
    bytes [<], [>] and [&], stripping it again returns it unchanged. *)
Theorem strip_ssml_idempotent_without_markup (x : list Z) :
  ~ In 60 (strip_ssml x) -> ~ In 62 (strip_ssml x) -> ~ In 38 (strip_ssml x) ->
  strip_ssml (strip_ssml x) = strip_ssml x.
Proof.
  intros Hlt Hgt Hamp.
  rewrite strip_ssml_plain by assumption.
  rewrite c_str_without_nul by apply strip_ssml_without_nul.
  rewrite remove_byte_absent by exact Hgt.
  unfold strip_ssml. rewrite trim_in_place_is_trim. apply trim_idempotent.
Qed.

Lemma strip_ssml_idempotent_without_markup_witness :
  strip_ssml (strip_ssml (bytes_of_string " <b>it&apos;s</b> "))
  = strip_ssml (bytes_of_string " <b>it&apos;s</b> ").
Proof.
  apply (strip_ssml_idempotent_without_markup (bytes_of_string " <b>it&apos;s</b> "));
    vm_compute; intros H;
    repeat (destruct H as [H | H]; [discriminate H |]); exact H.
Defined.

(** * Further properties of the text pipeline *)

(** ** strip_ssml: buffer bound and shape of the result *)

Lemma strip_tags_length text in_tag :
  (length (strip_tags text in_tag) <= length text)%nat.
Proof.
  revert in_tag. induction text as [| c rest IH]; intros in_tag; simpl; [lia |].
  destruct (c =? 60); [specialize (IH true); lia |].
  destruct (c =? 62); [specialize (IH false); lia |].
  destruct (negb in_tag); simpl; specialize (IH in_tag); lia.
Qed.

(** The in-place rewrite never stores more bytes than it has read. *)
Lemma decode_length l : (length (decode_xml_entities l) <= length l)%nat.
Proof.
  funelim (decode_xml_entities l); [simpl; lia |].
  destruct (c =? 0); [simpl; lia |].
  pose proof (decode_step_shrinks c rest) as Hs.
  match goal with IH : (length (decode_xml_entities _) <= _)%nat |- _ =>
    simpl length in *; lia end.
Qed.

Lemma trim_length l : (length (trim l) <= length l)%nat.
Proof.
  unfold trim. rewrite length_rev.
  etransitivity; [apply drop_while_length |].
  rewrite length_rev. apply drop_while_length.
Qed.

(** X1: the string [strip_ssml] returns is never longer than its input, so
    it fits, with its NUL, in the [len + 1] bytes allocated for it. *)
Theorem strip_ssml_fits_buffer (text : list Z) :
  (length (strip_ssml text) + 1 <= length text + 1)%nat.
Proof.
  unfold strip_ssml. rewrite trim_in_place_is_trim.
  pose proof (trim_length (decode_xml_entities (strip_tags text false))).
  pose proof (decode_length (strip_tags text false)).
  pose proof (strip_tags_length text false).
  lia.
Qed.

Lemma trim_head l : trim l = [] \/ is_trim_ws (hd 0 (trim l)) = false.
Proof.
  unfold trim.
  set (m := drop_while is_trim_ws l).
  destruct (drop_while_split is_trim_ws (rev m)) as (t & Ht & _).
  assert (Hm : m = rev (drop_while is_trim_ws (rev m)) ++ rev t).
  { rewrite <- rev_app_distr, <- Ht, rev_involutive. reflexivity. }
  destruct (rev (drop_while is_trim_ws (rev m))) as [| c q]; [left; reflexivity |].
  right. simpl.
  destruct (drop_while_head is_trim_ws l) as [H | H]; fold m in H;
    rewrite Hm in H; [discriminate | exact H].
Qed.

Lemma last_rev_hd (l : list Z) : last (rev l) 0 = hd 0 l.
Proof.
  destruct l as [| c rest]; [reflexivity |].
  simpl. apply last_last.
Qed.

Lemma trim_last l : trim l = [] \/ is_trim_ws (last (trim l) 0) = false.
Proof.
  unfold trim. rewrite last_rev_hd.
  destruct (drop_while_head is_trim_ws (rev (drop_while is_trim_ws l))) as [H | H].
  - left. rewrite H. reflexivity.
  - right. exact H.
Qed.

(** X2: whatever the input, the string [strip_ssml] returns holds no NUL
    and, unless it is empty, neither starts nor ends with a space, tab or
    newline. *)
Theorem strip_ssml_result_trimmed (text : list Z) :
  Forall (fun c => c <> 0) (strip_ssml text) /\
  (strip_ssml text = [] \/
   is_trim_ws (hd 0 (strip_ssml text)) = false /\
   is_trim_ws (last (strip_ssml text) 0) = false).
Proof.
  split; [apply strip_ssml_without_nul |].
  unfold strip_ssml. rewrite trim_in_place_is_trim.
  destruct (trim_head (decode_xml_entities (strip_tags text false))) as [H | H];
    [left; exact H |].
  destruct (trim_last (decode_xml_entities (strip_tags text false))) as [H' | H'];
    [left; exact H' | right; split; assumption].
Qed.

(** ** Tags *)

Lemma strip_tags_app a b in_tag :
  strip_tags (a ++ b) in_tag
  = strip_tags a in_tag ++ strip_tags b (tag_state a in_tag).
Proof.
  revert in_tag. induction a as [| c rest IH]; intros in_tag; simpl; [reflexivity |].
  destruct (c =? 60); [apply IH |].
  destruct (c =? 62); [apply IH |].
  destruct (negb in_tag); simpl; rewrite IH; reflexivity.
Qed.

Lemma strip_tags_inside tag : ~ In 62 tag -> strip_tags tag true = [].
Proof.
  induction tag as [| c rest IH]; intros Hgt; simpl; [reflexivity |].
  assert (Hc : c <> 62) by (intros ->; apply Hgt; left; reflexivity).
  assert (Hrest : ~ In 62 rest) by (intros H; apply Hgt; right; exact H).
  apply Z.eqb_neq in Hc. rewrite Hc.
  destruct (c =? 60); apply IH; exact Hrest.
Qed.

Lemma tag_state_inside tag : ~ In 62 tag -> tag_state tag true = true.
Proof.
  induction tag as [| c rest IH]; intros Hgt; simpl; [reflexivity |].
  assert (Hc : c <> 62) by (intros ->; apply Hgt; left; reflexivity).
  assert (Hrest : ~ In 62 rest) by (intros H; apply Hgt; right; exact H).
  apply Z.eqb_neq in Hc. rewrite Hc.
  destruct (c =? 60); apply IH; exact Hrest.
Qed.

Lemma tag_state_without_lt a : ~ In 60 a -> tag_state a false = false.
Proof.
  induction a as [| c rest IH]; intros Hlt; simpl; [reflexivity |].
  assert (Hc : c <> 60) by (intros ->; apply Hlt; left; reflexivity).
  assert (Hrest : ~ In 60 rest) by (intros H; apply Hlt; right; exact H).
  apply Z.eqb_neq in Hc. rewrite Hc.
  destruct (c =? 62); apply IH; exact Hrest.
Qed.

(** X3: the tag-removal loop leaves neither [<] nor [>] in the buffer. *)
Theorem strip_tags_leaves_no_brackets (text : list Z) (in_tag : bool) :
  Forall (fun c => c <> 60 /\ c <> 62) (strip_tags text in_tag).
Proof.
  revert in_tag. induction text as [| c rest IH]; intros in_tag; simpl;
    [constructor |].
  destruct (c =? 60) eqn:E60; [apply IH |].
  destruct (c =? 62) eqn:E62; [apply IH |].
  apply Z.eqb_neq in E60. apply Z.eqb_neq in E62.
  destruct (negb in_tag); [constructor; [split; assumption | apply IH] | apply IH].
Qed.

(** X4: a tag span, from [<] to the next [>], is removed as if it had never
    been there: when the text before it opens no tag,
    [strip_ssml (before ++ "<" ++ tag ++ ">" ++ after)] is
    [strip_ssml (before ++ after)]. *)
Theorem strip_ssml_removes_tag_span (before tag after : list Z) :
  ~ In 60 before -> ~ In 62 tag ->
  strip_ssml (before ++ 60 :: tag ++ 62 :: after) = strip_ssml (before ++ after).
Proof.
  intros Hlt Hgt. unfold strip_ssml. f_equal. f_equal.
  rewrite !strip_tags_app, (tag_state_without_lt before Hlt).
  f_equal. simpl.
  rewrite strip_tags_app, (strip_tags_inside tag Hgt), (tag_state_inside tag Hgt).
  reflexivity.
Qed.

Lemma strip_ssml_removes_tag_span_witness :
  strip_ssml (bytes_of_string "Hello <i>world</i>")
  = strip_ssml (bytes_of_string "Hello world</i>").
Proof.
  apply (strip_ssml_removes_tag_span
           (bytes_of_string "Hello ") (bytes_of_string "i")
           (bytes_of_string "world</i>"));
    vm_compute; intros H;
    repeat (destruct H as [H | H]; [discriminate H |]); exact H.
Defined.

(** X5: a [<] that no [>] follows suppresses everything after it: the
    result is that of the text before it. *)
Theorem strip_ssml_unclosed_tag (before rest : list Z) :
  ~ In 62 rest ->
  strip_ssml (before ++ 60 :: rest) = strip_ssml before.
Proof.
  intros Hgt. unfold strip_ssml. f_equal. f_equal.
  rewrite strip_tags_app. simpl.
  rewrite (strip_tags_inside rest Hgt). apply app_nil_r.
Qed.

Lemma strip_ssml_unclosed_tag_witness :
  strip_ssml (bytes_of_string "hi <b there") = strip_ssml (bytes_of_string "hi ").
Proof.
  apply (strip_ssml_unclosed_tag (bytes_of_string "hi ") (bytes_of_string "b there")).
  vm_compute. intros H.
  repeat (destruct H as [H | H]; [discriminate H |]). exact H.
Defined.

(** ** Entities *)

(** X6: each of the five entities of the table, wherever the scan meets it,
    is replaced by its character and the scan resumes right after it. *)
Theorem decode_replaces_entity (e : entity) (rest : list Z) :
  In e entities ->
  decode_xml_entities (ent_text e ++ rest)
  = ent_ch e :: decode_xml_entities rest.
Proof.
  intros Hin. simpl in Hin.
  repeat (destruct Hin as [<- | Hin];
          [cbn [ent_text ent_ch bytes_of_string list_ascii_of_string map app
                N_of_ascii N_of_digits Z.of_N];
           simpl app; simp decode_xml_entities; reflexivity |]).
  destruct Hin.
Qed.

Lemma decode_replaces_entity_witness :
  decode_xml_entities (bytes_of_string "&quot;" ++ bytes_of_string "x&y")
  = 34 :: decode_xml_entities (bytes_of_string "x&y").
Proof.
  apply (decode_replaces_entity
           {| ent_text := bytes_of_string "&quot;"; ent_ch := 34; ent_len := 6 |}
           (bytes_of_string "x&y")).
  simpl. tauto.
Defined.

(** * Further properties of the sanitizer *)

Lemma is_safe_char_ascii c :
  is_safe_char c = true -> (c <? 128) = true /\ (c =? 0) = false.
Proof.
  intros H. apply is_safe_char_declared, declared_safe_ascii in H.
  split; [apply Z.ltb_lt | apply Z.eqb_neq]; lia.
Qed.

Lemma sanitize_loop_safe_text text dst :
  Forall (fun c => is_safe_char c = true) text ->
  sanitize_loop text dst = rev text ++ dst.
Proof.
  intros H. revert dst.
  induction H as [| c rest Hc Hrest IH]; intros dst; simp sanitize_loop;
    [reflexivity |].
  destruct (is_safe_char_ascii c Hc) as [H128 H0].
  rewrite H0. unfold sanitize_step. cbn [deref hd tl].
  rewrite H128, Hc. cbn [fst snd].
  rewrite IH. simpl. rewrite <- app_assoc. reflexivity.
Qed.

Lemma sanitize_output_safe_chars text :
  Forall (fun c => is_safe_char c = true) (sanitize_for_viavoice text).
Proof.
  unfold sanitize_for_viavoice. apply Forall_rev.
  apply sanitize_loop_Forall; try reflexivity.
  - intros c Hc. exact Hc.
  - apply Forall_forall. apply forallb_forall. vm_compute. reflexivity.
  - constructor.
Qed.

(** X7: a text made only of pass-through characters (letters, digits,
    space, tab, newline, [. , ! ? $ ']) is returned unchanged. *)
Theorem sanitize_keeps_safe_text (text : list Z) :
  Forall (fun c => is_safe_char c = true) text ->
  sanitize_for_viavoice text = text.
Proof.
  intros H. unfold sanitize_for_viavoice.
  rewrite (sanitize_loop_safe_text text [] H), app_nil_r. apply rev_involutive.
Qed.

Lemma sanitize_keeps_safe_text_witness :
  sanitize_for_viavoice (bytes_of_string "It's $5, ok? Yes!")
  = bytes_of_string "It's $5, ok? Yes!".
Proof.
  apply (sanitize_keeps_safe_text (bytes_of_string "It's $5, ok? Yes!")).
  apply Forall_forall. apply forallb_forall. vm_compute. reflexivity.
Defined.

(** X8: the sanitizer is idempotent: sanitizing its own output changes
    nothing. *)
Theorem sanitize_idempotent (text : list Z) :
  sanitize_for_viavoice (sanitize_for_viavoice text) = sanitize_for_viavoice text.
Proof.
  unfold sanitize_for_viavoice at 1.
  rewrite (sanitize_loop_safe_text _ [] (sanitize_output_safe_chars text)).
  rewrite app_nil_r. apply rev_involutive.
Qed.

(** ** Output length *)

Lemma nth_nonzero_length (l : list Z) i : nth i l 0 <> 0 -> (i < length l)%nat.
Proof.
  intros H. destruct (Nat.lt_ge_cases i (length l)) as [Hlt | Hge]; [exact Hlt |].
  rewrite nth_overflow in H by exact Hge. contradiction.
Qed.

Lemma clause_break_dst_length src dst :
  (length (snd (clause_break src dst)) <= length dst + 2)%nat.
Proof.
  unfold clause_break. cbn [snd].
  pose proof (drop_while_length is_blank dst) as H.
  destruct (drop_while is_blank dst); simpl in *; lia.
Qed.

Lemma currency_word_length b w :
  currency_word b = Some w -> (length w <= 5)%nat.
Proof.
  unfold currency_word. intros H.
  destruct (b =? 163); [injection H as <-; simpl; lia |].
  destruct (b =? 162); [injection H as <-; simpl; lia |].
  destruct (b =? 165); [injection H as <-; simpl; lia | discriminate].
Qed.

(** One iteration never writes more than five bytes for two read. *)
Lemma sanitize_step_potential c rest dst :
  (2 * length (snd (sanitize_step (c :: rest) dst))
   + 5 * length (fst (sanitize_step (c :: rest) dst))
   <= 2 * length dst + 5 * length (c :: rest))%nat.
Proof.
  pose proof (clause_break_length rest dst) as Hs1.
  pose proof (clause_break_dst_length rest dst) as Hd1.
  pose proof (clause_break_length (skipn 3 (c :: rest)) dst) as Hs3.
  pose proof (clause_break_dst_length (skipn 3 (c :: rest)) dst) as Hd3.
  rewrite length_skipn in Hs3.
  unfold sanitize_step. cbn [deref hd tl].
  destruct (c <? 128).
  - destruct (is_safe_char c); [simpl; lia |].
    destruct (is_clause_break c); [simpl length in *; lia | simpl; lia].
  - destruct (negb (seq_valid (c :: rest) (seqlen_of c))); [simpl; lia |].
    destruct (if (seqlen_of c =? 2)%nat && (c =? 194)
              then currency_word (nth 1 (c :: rest) 0) else None) as [w |] eqn:Ew.
    + destruct ((seqlen_of c =? 2)%nat && (c =? 194)); [| discriminate].
      pose proof (currency_word_length _ _ Ew) as Hw.
      assert (Hlen : (1 < length (c :: rest))%nat).
      { apply nth_nonzero_length. unfold currency_word in Ew.
        intros E0. rewrite E0 in Ew. discriminate. }
      cbn [fst snd]. unfold emit_word.
      rewrite length_app, length_rev, length_skipn. lia.
    + destruct ((seqlen_of c =? 3)%nat && (c =? 226) &&
                (nth 1 (c :: rest) 0 =? 130) && (nth 2 (c :: rest) 0 =? 172)) eqn:Ee.
      * apply andb_prop in Ee. destruct Ee as [_ E2]. apply Z.eqb_eq in E2.
        assert (Hlen : (2 < length (c :: rest))%nat)
          by (apply nth_nonzero_length; lia).
        cbn [fst snd]. unfold emit_word.
        rewrite length_app, length_rev, length_skipn. simpl length in *. lia.
      * destruct ((seqlen_of c =? 3)%nat && (c =? 226) &&
                  (nth 1 (c :: rest) 0 =? 128) &&
                  ((nth 2 (c :: rest) 0 =? 148) || (nth 2 (c :: rest) 0 =? 147))) eqn:Ed.
        -- apply andb_prop in Ed. destruct Ed as [_ E2].
           assert (Hlen : (2 < length (c :: rest))%nat).
           { apply nth_nonzero_length.
             apply orb_prop in E2. destruct E2 as [E2 | E2];
               apply Z.eqb_eq in E2; lia. }
           simpl length in *. lia.
        -- cbn [fst snd]. rewrite length_skipn.
           assert (2 <= seqlen_of c)%nat
             by (unfold seqlen_of; destruct (c <? 224); [| destruct (c <? 240)]; lia).
           simpl length. lia.
Qed.

Lemma sanitize_loop_length src dst :
  (2 * length (sanitize_loop src dst) <= 2 * length dst + 5 * length src)%nat.
Proof.
  funelim (sanitize_loop src dst); [lia |].
  destruct (c =? 0); [simpl length; lia |].
  pose proof (sanitize_step_potential c rest dst).
  match goal with IH : (2 * length (sanitize_loop _ _) <= _)%nat |- _ => lia end.
Qed.

(** X9: the output is at most two and a half times as long as the input
    (reached by the pound sign, two bytes for five). *)
Theorem sanitize_output_length (text : list Z) :
  (2 * length (sanitize_for_viavoice text) <= 5 * length text)%nat.
Proof.
  unfold sanitize_for_viavoice. rewrite length_rev.
  pose proof (sanitize_loop_length text []). simpl length in *. lia.
Qed.

Lemma sanitize_step_ascii c rest dst :
  c < 128 ->
  (length (snd (sanitize_step (c :: rest) dst))
   + 2 * length (fst (sanitize_step (c :: rest) dst))
   <= length dst + 2 * length (c :: rest))%nat /\
  exists skipped, rest = skipped ++ fst (sanitize_step (c :: rest) dst).
Proof.
  intros Hc. apply Z.ltb_lt in Hc.
  pose proof (clause_break_length rest dst) as Hs1.
  pose proof (clause_break_dst_length rest dst) as Hd1.
  unfold sanitize_step. cbn [deref hd tl]. rewrite Hc.
  destruct (is_safe_char c); [split; [simpl; lia | exists []; reflexivity] |].
  destruct (is_clause_break c); [| split; [simpl; lia | exists []; reflexivity]].
  split; [simpl length in *; lia |].
  unfold clause_break. cbn [fst].
  destruct (drop_while_split is_trailing_punct rest) as (p1 & Hp1 & _).
  destruct (drop_while_split is_blank (drop_while is_trailing_punct rest))
    as (p2 & Hp2 & _).
  exists (p1 ++ p2). rewrite <- app_assoc, <- Hp2. exact Hp1.
Qed.

Lemma sanitize_loop_ascii_length src dst :
  Forall (fun c => c < 128) src ->
  (length (sanitize_loop src dst) <= length dst + 2 * length src)%nat.
Proof.
  funelim (sanitize_loop src dst); intros Hascii; [lia |].
  destruct (c =? 0); [simpl length; lia |].
  inversion Hascii as [| c' rest' Hc Hrest]; subst.
  destruct (sanitize_step_ascii c rest dst Hc) as [Hpot [skipped Hsk]].
  match goal with
  | IH : Forall _ _ -> (length (sanitize_loop _ _) <= _)%nat |- _ =>
      assert (Hnext : Forall (fun c => c < 128) (fst (sanitize_step (c :: rest) dst)))
        by (rewrite Hsk in Hrest; apply Forall_app in Hrest; apply Hrest);
      specialize (IH Hnext); lia
  end.
Qed.

(** X10: for a text of ASCII bytes only, the string written, NUL included,
    fits the [2 * strlen + 1] bytes allocated. *)
Theorem sanitize_ascii_fits_buffer (text : list Z) :
  Forall (fun c => 0 < c < 128) text ->
  sanitize_bytes_written text <= sanitize_buffer_size text.
Proof.
  intros H. unfold sanitize_bytes_written, sanitize_buffer_size.
  rewrite c_str_without_nul
    by (eapply Forall_impl; [| exact H]; simpl; intros; lia).
  unfold sanitize_for_viavoice. rewrite length_rev.
  assert (Hascii : Forall (fun c => c < 128) text)
    by (eapply Forall_impl; [| exact H]; simpl; intros; lia).
  pose proof (sanitize_loop_ascii_length text [] Hascii). simpl length in *. lia.
Qed.

Lemma sanitize_ascii_fits_buffer_witness :
  sanitize_bytes_written (bytes_of_string "a;b:c(d)") <=
  sanitize_buffer_size (bytes_of_string "a;b:c(d)").
Proof.
  apply (sanitize_ascii_fits_buffer (bytes_of_string "a;b:c(d)")).
  apply Forall_forall. intros c Hc.
  assert (Hb : ((0 <? c) && (c <? 128))%bool = true).
  { revert c Hc. apply forallb_forall. vm_compute. reflexivity. }
  apply andb_prop in Hb. destruct Hb as [H1 H2].
  apply Z.ltb_lt in H1. apply Z.ltb_lt in H2. lia.
Defined.

(** * Further properties of the audio collector *)



Lemma firstn_app_exact (A : Type) (l1 l2 : list A) n :
  n = length l1 -> firstn n (l1 ++ l2) = l1.
Proof.
  intros ->. rewrite firstn_app, Nat.sub_diag, firstn_O, app_nil_r.
  apply firstn_all.
Qed.

(** What one successful waveform callback does to a consistent buffer. *)
Lemma collect_appends (size : Z) (inv : invocation) (ad : AudioData) :
  0 <= size -> buffer_ok ad -> good_fragment inv ->
  let ad' := fst (collect size inv ad) in
  snd (collect size inv ad) = eciDataProcessed /\
  buffer_ok ad' /\
  num_samples ad' = num_samples ad + inv_param inv /\
  collected ad' = collected ad ++ fragment inv.
Proof.
  intros Hsize [Hcnt Hblk] (Hmsg & Hre & Hn). cbv zeta.
  assert (Hfrag : length (fragment inv) = Z.to_nat (inv_param inv)).
  { unfold fragment. rewrite length_map, length_firstn. lia. }
  unfold collect.
  destruct (num_samples ad + inv_param inv >? allocated ad) eqn:E.
  - (* the buffer grows *)
    rewrite Z.gtb_ltb in E. apply Z.ltb_lt in E.
    unfold realloc. rewrite Hre. cbn [fst snd memcpy_at].
    fold (fragment inv). rewrite Hfrag.
    set (old := match samples ad with Some b => b | None => [] end).
    assert (Hold : Z.of_nat (length old) = allocated ad).
    { unfold old. destruct (samples ad); [exact Hblk | simpl; lia]. }
    set (alloc := Z.to_nat (num_samples ad + inv_param inv + size)).
    assert (Hfirst : firstn alloc old = old) by (apply firstn_all2; lia).
    rewrite Hfirst.
    set (blk := old ++ repeat Undef (alloc - length old)).
    assert (Hblen : length blk = alloc).
    { unfold blk. rewrite length_app, repeat_length. lia. }
    assert (Hcol : collected ad = firstn (Z.to_nat (num_samples ad)) old).
    { unfold collected, old. destruct (samples ad); [reflexivity |].
      rewrite firstn_nil. reflexivity. }
    assert (Hpre : firstn (Z.to_nat (num_samples ad)) blk = collected ad).
    { rewrite Hcol. unfold blk. rewrite firstn_app.
      replace (Z.to_nat (num_samples ad) - length old)%nat with 0%nat by lia.
      rewrite firstn_O, app_nil_r. reflexivity. }
    split; [reflexivity |]. split; [| split; [reflexivity |]].
    + split; cbn [num_samples allocated samples]; [lia |].
      rewrite !length_app, length_firstn, length_skipn, Hfrag, Hblen. lia.
    + unfold collected at 1. cbn [samples num_samples].
      rewrite app_assoc, Hpre. apply firstn_app_exact.
      rewrite length_app, Hfrag, <- Hpre, length_firstn, Hblen. lia.
  - (* the fragment fits *)
    rewrite Z.gtb_ltb in E. apply Z.ltb_ge in E.
    cbn [fst snd]. fold (fragment inv).
    destruct (samples ad) as [blk |] eqn:Es.
    + cbn [memcpy_at]. fold (fragment inv). rewrite Hfrag.
      split; [reflexivity |]. split; [| split; [reflexivity |]].
      * split; cbn [num_samples allocated samples]; [lia |].
        rewrite !length_app, length_firstn, length_skipn, Hfrag. lia.
      * unfold collected. rewrite Es. cbn [samples num_samples].
        rewrite app_assoc. apply firstn_app_exact.
        rewrite length_app, Hfrag, length_firstn. lia.
    + (* NULL with capacity 0: only the empty fragment fits *)
      assert (Hz : inv_param inv = 0) by lia.
      assert (Hnum : num_samples ad = 0) by lia.
      cbn [memcpy_at].
      split; [reflexivity |]. split; [| split; [reflexivity |]].
      * split; cbn [num_samples allocated samples]; lia.
      * unfold collected. rewrite Es. cbn [samples].
        unfold fragment. rewrite Hz. reflexivity.
Qed.

Lemma eci_callback_appends (st : module_state) (inv : invocation) :
  stop_requested st = false -> 0 <= audio_buffer_size st ->
  buffer_ok (audio_data st) -> good_fragment inv ->
  let st' := fst (eci_callback st inv) in
  stop_requested st' = false /\
  audio_buffer_size st' = audio_buffer_size st /\
  buffer_ok (audio_data st') /\
  num_samples (audio_data st') = num_samples (audio_data st) + inv_param inv /\
  collected (audio_data st') = collected (audio_data st) ++ fragment inv.
Proof.
  intros Hstop Hsize Hok Hgood. cbv zeta.
  destruct (collect_appends (audio_buffer_size st) inv (audio_data st)
              Hsize Hok Hgood) as (_ & H1 & H2 & H3).
  unfold eci_callback. rewrite Hstop.
  destruct Hgood as (Hmsg & _). rewrite Hmsg. cbn [ECIMessage_eqb].
  cbn [audio_buffer_size audio_data set_mutex].
  destruct (collect (audio_buffer_size st) inv (audio_data st)) as [ad r].
  cbn [fst] in *. simpl. repeat split; try assumption; apply H1.
Qed.

(** X12: fragments accepted one after the other are collected in the order
    delivered: after any sequence of successful waveform callbacks on a
    consistent buffer, the collected samples are the earlier ones followed
    by the fragments in order, the logical length has grown by the sum of
    their lengths, and the buffer is consistent again. *)
Theorem fragments_collected_in_order (invs : list invocation) (st : module_state) :
  stop_requested st = false -> 0 <= audio_buffer_size st ->
  buffer_ok (audio_data st) -> Forall good_fragment invs ->
  let st' := perform_all (map Deliver invs) st in
  buffer_ok (audio_data st') /\
  num_samples (audio_data st')
  = num_samples (audio_data st) + fold_right Z.add 0 (map inv_param invs) /\
  collected (audio_data st')
  = collected (audio_data st) ++ concat (map fragment invs).
Proof.
  intros Hstop Hsize Hok Hall. revert st Hstop Hsize Hok. cbv zeta.
  induction Hall as [| inv rest Hinv Hrest IH]; intros st Hstop Hsize Hok.
  - simpl. rewrite app_nil_r, Z.add_0_r. repeat split; apply Hok.
  - destruct (eci_callback_appends st inv Hstop Hsize Hok Hinv)
      as (Hstop' & Hsize' & Hok' & Hnum' & Hcol').
    unfold perform_all in *. cbn [map fold_left perform].
    rewrite <- Hsize' in Hsize.
    destruct (IH _ Hstop' Hsize Hok') as (Hok'' & Hnum'' & Hcol'').
    split; [exact Hok'' |]. split.
    + rewrite Hnum'', Hnum'. simpl. lia.
    + rewrite Hcol'', Hcol'. simpl. rewrite <- app_assoc. reflexivity.
Qed.

Lemma fragments_collected_in_order_witness :
  let st' := perform_all
               (map Deliver [waveform 2 [5; 6] true; waveform 1 [7; 8] true])
               initial_state in
  num_samples (audio_data st') = 3 /\
  collected (audio_data st') = [Sample 5; Sample 6; Sample 7].
Proof.
  assert (Hok : buffer_ok (audio_data initial_state))
    by (unfold buffer_ok; simpl; lia).
  assert (Hall : Forall good_fragment [waveform 2 [5; 6] true; waveform 1 [7; 8] true])
    by (repeat constructor; simpl; lia).
  pose proof (fragments_collected_in_order
                [waveform 2 [5; 6] true; waveform 1 [7; 8] true] initial_state
                eq_refl ltac:(simpl; lia) Hok Hall) as H.
  cbv zeta in *. destruct H as (_ & Hnum & Hcol).
  split; [exact Hnum | exact Hcol].
Defined.

(** * Further properties of the orchestrator *)

Lemma eci_callback_frame (st : module_state) (inv : invocation) :
  stop_requested (fst (eci_callback st inv)) = stop_requested st /\
  eci_sample_rate (fst (eci_callback st inv)) = eci_sample_rate st /\
  eciHandle (fst (eci_callback st inv)) = eciHandle st.
Proof.
  unfold eci_callback.
  destruct (stop_requested st) eqn:Es; [simpl; repeat split; exact Es |].
  destruct (ECIMessage_eqb (inv_msg inv) eciWaveformBuffer);
    [| simpl; repeat split; exact Es].
  destruct (collect _ inv _) as [ad r]. simpl. repeat split; exact Es.
Qed.

Lemma perform_all_rate (acts : list activity) (st : module_state) :
  eci_sample_rate (perform_all acts st) = eci_sample_rate st.
Proof.
  revert st. unfold perform_all.
  induction acts as [| a acts IH]; intros st; [reflexivity |].
  simpl. rewrite IH. destruct a; simpl; [apply eci_callback_frame | reflexivity].
Qed.



(** Once the flag is set, nothing the engine still delivers is collected. *)
Lemma perform_all_stopped_audio (acts : list activity) (st : module_state) :
  stop_requested st = true ->
  audio_data (perform_all acts st) = audio_data st.
Proof.
  revert st. unfold perform_all.
  induction acts as [| a acts IH]; intros st H; [reflexivity |].
  simpl. destruct a; simpl.
  - unfold eci_callback. rewrite H. simpl. apply IH. exact H.
  - rewrite IH by reflexivity. reflexivity.
Qed.



(** X14: at most one track is handed to the host per utterance, and a track
    handed over is 16-bit mono at the module's sample rate, carries the
    final, positive sample count with the collector's block, and is only
    handed over with the stop flag clear. *)
Theorem delivered_track_format
    (eng : engine) (st : module_state) (data : list Z) (msgtype : SPDMessageType) :
  let st' := fst (module_speak_sync eng st data msgtype) in
  let evs := snd (module_speak_sync eng st data msgtype) in
  (length (delivered evs) <= 1)%nat /\
  forall t, In t (delivered evs) ->
    bits t = 16 /\ num_channels t = 1 /\
    sample_rate t = eci_sample_rate st /\
    0 < track_num_samples t /\
    track_num_samples t = num_samples (audio_data st') /\
    track_samples t = samples (audio_data st') /\
    stop_requested st' = false.
Proof.
  cbv zeta. unfold module_speak_sync.
  destruct (negb (eciHandle st)); [split; [simpl; lia | intros t []] |].
  destruct (is_empty (strip_ssml data)); [split; [simpl; lia | intros t []] |].
  match goal with |- context [if ?b && is_empty ?t then _ else _] =>
    destruct (b && is_empty t) end; [split; [simpl; lia | intros t []] |].
  destruct (negb (add_text_ok eng)); [split; [simpl; lia | intros t []] |].
  destruct (negb (synthesize_ok eng)); [split; [simpl; lia | intros t []] |].
  match goal with |- context [stop_requested ?s] =>
    set (final := s); destruct (stop_requested final) eqn:Hstop end;
    [split; [simpl; lia | intros t []] |].
  destruct (num_samples (audio_data final) >? 0) eqn:Hpos;
    [| split; [simpl; lia | intros t []]].
  split; [simpl; lia |].
  intros t Ht. simpl in Ht. destruct Ht as [<- | []]. cbn [fst].
  rewrite Z.gtb_ltb in Hpos. apply Z.ltb_lt in Hpos.
  repeat split; try assumption.
  cbn [sample_rate]. unfold final. rewrite !perform_all_rate. reflexivity.
Qed.

Lemma is_empty_nil (t : list Z) : is_empty t = true <-> t = [].
Proof.
  destruct t; simpl; split; intros H; try reflexivity; discriminate H.
Qed.

(** The runs in which a text reaches the engine. *)
Lemma submitted_cases
    (eng : engine) (st : module_state) (data : list Z) (msgtype : SPDMessageType) :
  submitted (snd (module_speak_sync eng st data msgtype)) = [] \/
  (submitted (snd (module_speak_sync eng st data msgtype)) = [prepared data msgtype] /\
   strip_ssml data <> [] /\ prepared data msgtype <> []).
Proof.
  unfold module_speak_sync, prepared.
  destruct (negb (eciHandle st)); [left; reflexivity |].
  destruct (is_empty (strip_ssml data)) eqn:Es; [left; reflexivity |].
  assert (Hs : strip_ssml data <> [])
    by (intros H; apply is_empty_nil in H; congruence).
  destruct (wants_sanitize msgtype); cbn [andb].
  - destruct (is_empty (sanitize_for_viavoice (strip_ssml data))) eqn:Ep;
      [left; reflexivity |].
    assert (Hp : sanitize_for_viavoice (strip_ssml data) <> [])
      by (intros H; apply is_empty_nil in H; congruence).
    right. split; [| split; assumption].
    destruct (negb (add_text_ok eng)); [reflexivity |].
    destruct (negb (synthesize_ok eng)); [reflexivity |].
    match goal with |- context [stop_requested ?s] => destruct (stop_requested s) end;
      [reflexivity |].
    match goal with |- context [num_samples ?a >? 0] => destruct (num_samples a >? 0) end;
      reflexivity.
  - right. split; [| split; assumption].
    destruct (negb (add_text_ok eng)); [reflexivity |].
    destruct (negb (synthesize_ok eng)); [reflexivity |].
    match goal with |- context [stop_requested ?s] => destruct (stop_requested s) end;
      [reflexivity |].
    match goal with |- context [num_samples ?a >? 0] => destruct (num_samples a >? 0) end;
      reflexivity.
Qed.

(** X15: whatever the utterance and its kind, a text handed to [eciAddText]
    is a non-empty string without NUL; for ordinary text and sound icons it
    is the sanitized, stripped utterance and every one of its bytes lies in
    the safe set. *)
Theorem engine_receives_clean_text
    (eng : engine) (st : module_state) (data : list Z) (msgtype : SPDMessageType) :
  forall t, In t (submitted (snd (module_speak_sync eng st data msgtype))) ->
    t <> [] /\ Forall (fun c => c <> 0) t /\
    (wants_sanitize msgtype = true ->
     t = sanitize_for_viavoice (strip_ssml data) /\ Forall declared_safe t).
Proof.
  intros t Ht.
  destruct (submitted_cases eng st data msgtype) as [H | (H & Hs & Hp)];
    rewrite H in Ht; [destruct Ht |].
  destruct Ht as [<- | []].
  split; [exact Hp |]. unfold prepared in *.
  destruct (wants_sanitize msgtype).
  - assert (Hsafe : Forall declared_safe (sanitize_for_viavoice (strip_ssml data))).
    { eapply Forall_impl; [| apply sanitize_output_safe_chars].
      intros c Hc. apply is_safe_char_declared. exact Hc. }
    split.
    + eapply Forall_impl; [| exact Hsafe].
      intros c Hc. apply declared_safe_ascii in Hc. lia.
    + intros _. split; [reflexivity | exact Hsafe].
  - split; [apply strip_ssml_without_nul | discriminate].
Qed.

(** X16: with an engine handle, the run consists of the single error report
    exactly when the prepared text is empty; the engine is then not called,
    the stop flag is clear and the logical length is zero. *)
Theorem nothing_to_speak
    (eng : engine) (st : module_state) (data : list Z) (msgtype : SPDMessageType) :
  eciHandle st = true ->
  (prepared data msgtype = [] <->
   snd (module_speak_sync eng st data msgtype) = [module_speak_error]) /\
  (prepared data msgtype = [] ->
   stop_requested (fst (module_speak_sync eng st data msgtype)) = false /\
   num_samples (audio_data (fst (module_speak_sync eng st data msgtype))) = 0).
Proof.
  intros Hh. unfold module_speak_sync, prepared. rewrite Hh. cbn [negb].
  destruct (is_empty (strip_ssml data)) eqn:Es.
  - apply is_empty_nil in Es. rewrite Es.
    assert (Hnil : sanitize_for_viavoice [] = []) by reflexivity.
    rewrite Hnil.
    split; [split; intros _; [reflexivity | destruct (wants_sanitize msgtype); reflexivity] |].
    intros _. split; reflexivity.
  - assert (Hs : strip_ssml data <> [])
      by (intros H; apply is_empty_nil in H; congruence).
    destruct (wants_sanitize msgtype); cbn [andb].
    + destruct (is_empty (sanitize_for_viavoice (strip_ssml data))) eqn:Ep.
      * apply is_empty_nil in Ep.
        split; [split; intros _; [reflexivity | exact Ep] |].
        intros _. split; reflexivity.
      * assert (Hp : sanitize_for_viavoice (strip_ssml data) <> [])
          by (intros H; apply is_empty_nil in H; congruence).
        split; [| intros H; contradiction].
        split; [intros H; contradiction |].
        destruct (negb (add_text_ok eng)); [discriminate |].
        destruct (negb (synthesize_ok eng)); [discriminate |].
        match goal with |- context [stop_requested ?s] => destruct (stop_requested s) end;
          discriminate.
    + split; [| intros H; contradiction].
      split; [intros H; contradiction |].
      destruct (negb (add_text_ok eng)); [discriminate |].
      destruct (negb (synthesize_ok eng)); [discriminate |].
      match goal with |- context [stop_requested ?s] => destruct (stop_requested s) end;
        discriminate.
Qed.

Lemma nothing_to_speak_witness :
  snd (module_speak_sync silent_engine initial_state
         (bytes_of_string "<tag></tag>") SPD_MSGTYPE_TEXT)
  = [module_speak_error].
Proof.
  apply (proj1 (nothing_to_speak silent_engine initial_state
                  (bytes_of_string "<tag></tag>") SPD_MSGTYPE_TEXT eq_refl)).
  reflexivity.
Defined.

(** X17: an utterance starts afresh: the stop flag and the logical length
    left by the previous one have no influence on what is reported,
    submitted and delivered, nor, when there is an engine handle, on the
    state the module ends in. *)
Theorem previous_utterance_does_not_leak
    (eng : engine) (st : module_state) (data : list Z) (msgtype : SPDMessageType)
    (flag : bool) (n : Z) :
  let ad := audio_data st in
  let st0 := set_stop flag (set_audio (mkAudioData (samples ad) n (allocated ad)) st) in
  snd (module_speak_sync eng st0 data msgtype)
  = snd (module_speak_sync eng st data msgtype) /\
  (eciHandle st = true ->
   fst (module_speak_sync eng st0 data msgtype)
   = fst (module_speak_sync eng st data msgtype)).
Proof.
  destruct st as [h s r sz ad m]. cbv zeta. unfold module_speak_sync. simpl.
  destruct h; split; try reflexivity. intros H; discriminate H.
Qed.

(** * Settings *)


Lemma clamp_range (x hi : Z) :
  0 <= hi ->
  0 <= (if (if x <? 0 then 0 else x) >? hi then hi else (if x <? 0 then 0 else x)) <= hi.
Proof.
  intros Hhi. destruct (x <? 0) eqn:E0.
  - destruct (0 >? hi) eqn:E1; [lia |]. rewrite Z.gtb_ltb in E1.
    apply Z.ltb_ge in E1. lia.
  - apply Z.ltb_ge in E0. destruct (x >? hi) eqn:E1; [lia |].
    rewrite Z.gtb_ltb in E1. apply Z.ltb_ge in E1. lia.
Qed.


Lemma module_set_ok (var val : list Z) (s : voice_settings) :
  settings_ok s -> settings_ok (module_set var val s).
Proof.
  intros (Hr & Hp & Hv). unfold module_set, settings_ok.
  repeat match goal with
         | |- context [if strcmp_eq ?a ?b then _ else _] => destruct (strcmp_eq a b)
         | |- context [if ?a || ?b then _ else _] => destruct (a || b)
         end;
    cbn [current_rate current_pitch current_volume];
    repeat split; try lia; apply clamp_range; lia.
Qed.

(** X18: whatever is passed to [module_set], in whatever order, the rate
    stays within 0..250 and pitch and volume within 0..100, the ranges of
    the engine's voice parameters. *)
Theorem settings_stay_in_range (calls : list (list Z * list Z)) :
  settings_ok (module_set_all calls default_settings).
Proof.
  assert (H0 : settings_ok default_settings) by (unfold settings_ok; simpl; lia).
  revert H0. generalize default_settings. unfold module_set_all.
  induction calls as [| call calls IH]; intros s Hs; [exact Hs |].
  simpl. apply IH, module_set_ok, Hs.
Qed.








(** * Configuration *)

Lemma config_var_eqb_eq (a b : config_var) : config_var_eqb a b = true -> a = b.
Proof. destruct a, b; simpl; intros H; try reflexivity; discriminate H. Qed.

Lemma dict_var_eqb_eq (a b : dict_var) : dict_var_eqb a b = true -> a = b.
Proof. destruct a, b; simpl; intros H; try reflexivity; discriminate H. Qed.

Lemma default_config_ok : config_ok default_config.
Proof.
  split.
  - intros v. destruct v; simpl; lia.
  - intros d. simpl. split; [lia | constructor].
Qed.

Lemma set_int_ok (v : config_var) (x : Z) (cfg : config) :
  allowed v x -> config_ok cfg -> config_ok (set_int v x cfg).
Proof.
  intros Hx [Hint Hdict]. split; [| exact Hdict].
  intros v'. simpl. destruct (config_var_eqb v v') eqn:E; [| apply Hint].
  apply config_var_eqb_eq in E. subst v'. exact Hx.
Qed.

Lemma c_str_nonzero (l : list Z) : Forall (fun c => c <> 0) (c_str l).
Proof.
  induction l as [| c rest IH]; simpl; [constructor |].
  destruct (c =? 0) eqn:E; [constructor |].
  apply Z.eqb_neq in E. constructor; assumption.
Qed.

Lemma firstn_Forall (Q : Z -> Prop) n (l : list Z) :
  Forall Q l -> Forall Q (firstn n l).
Proof.
  intros H. revert n. induction H as [| c rest Hc Hrest IH]; intros n.
  - rewrite firstn_nil. constructor.
  - destruct n; simpl; constructor; [exact Hc | apply IH].
Qed.

Lemma set_dict_ok (d : dict_var) (value : list Z) (cfg : config) :
  config_ok cfg -> config_ok (set_dict d (copy_path value) cfg).
Proof.
  intros [Hint Hdict]. split; [exact Hint |].
  intros d'. simpl. destruct (dict_var_eqb d d'); [| apply Hdict].
  unfold copy_path. split.
  - rewrite length_firstn. lia.
  - apply firstn_Forall, c_str_nonzero.
Qed.

Lemma set_if_within_ok (v : config_var) (lo hi : Z) (value : list Z) (cfg : config) :
  (forall x, lo <= x <= hi -> allowed v x) ->
  config_ok cfg -> config_ok (set_if_within v lo hi value cfg).
Proof.
  intros Hall Hok. unfold set_if_within.
  destruct ((lo <=? atoi value) && (atoi value <=? hi)) eqn:E; [| exact Hok].
  apply andb_prop in E. destruct E as [E1 E2].
  apply Z.leb_le in E1. apply Z.leb_le in E2.
  apply set_int_ok; [apply Hall; lia | exact Hok].
Qed.

Lemma set_if_nonneg_ok (v : config_var) (value : list Z) (cfg : config) :
  (forall x, 0 <= x -> allowed v x) ->
  config_ok cfg -> config_ok (set_if_nonneg v value cfg).
Proof.
  intros Hall Hok. unfold set_if_nonneg.
  destruct (0 <=? atoi value) eqn:E; [| exact Hok].
  apply Z.leb_le in E. apply set_int_ok; [apply Hall; lia | exact Hok].
Qed.

Lemma config_entry_ok (key value : list Z) (cfg : config) :
  config_ok cfg -> config_ok (config_entry key value cfg).
Proof.
  intros Hok. unfold config_entry.
  repeat match goal with
         | |- context [if strcasecmp_eq ?a ?b then _ else _] =>
             destruct (strcasecmp_eq a b)
         end;
    try exact Hok;
    try (apply set_if_within_ok; [simpl; intros; lia | exact Hok]);
    try (apply set_if_nonneg_ok; [simpl; intros; lia | exact Hok]);
    try (apply set_dict_ok; exact Hok).
  repeat match goal with
         | |- context [if ?b then _ else _] => destruct b eqn:?
         end;
    try exact Hok;
    apply set_int_ok; try exact Hok; simpl; lia.
Qed.

Lemma config_line_ok (line : list Z) (cfg : config) :
  config_ok cfg -> config_ok (config_line line cfg).
Proof.
  intros Hok. unfold config_line.
  match goal with |- context [if ?b then _ else _] => destruct b end; [exact Hok |].
  destruct (scan_key_value _) as [[key value] |]; [| exact Hok].
  apply config_entry_ok, Hok.
Qed.

Lemma module_config_ok (file : option (list (list Z))) (cfg : config) :
  config_ok cfg -> config_ok (module_config file cfg).
Proof.
  destruct file as [lines |]; simpl; [| tauto].
  revert cfg. induction lines as [| line lines IH]; intros cfg Hok; [exact Hok |].
  simpl. apply IH, config_line_ok, Hok.
Qed.

(** X21: whatever the configuration file holds, after [module_config] every
    configuration variable has its initial value or a value within the
    range accepted for it (sample-rate code 0..2, voice 0..7, speed 0..250,
    the other voice parameters 0..100, the switches 0..1, the modes not
    below 0), and every dictionary path fits its 256-byte buffer. *)
Theorem config_values_in_range (file : option (list (list Z))) :
  config_ok (module_config file default_config).
Proof. apply module_config_ok, default_config_ok. Qed.

(** X22: the voice configured always names an entry of the voice table, so
    [module_list_voices] indexes within it, whatever the configuration
    file holds. *)
Theorem listed_voice_exists (file : option (list (list Z))) :
  exists name,
    listed_voice_name (module_config file default_config) = Some name /\
    In name voice_name_table.
Proof.
  destruct (module_config_ok file default_config default_config_ok) as [Hint _].
  specialize (Hint config_voice). simpl in Hint.
  unfold listed_voice_name.
  destruct (cfg_int (module_config file default_config) config_voice <? 0) eqn:E;
    [apply Z.ltb_lt in E; lia |].
  destruct (nth_error voice_name_table
              (Z.to_nat (cfg_int (module_config file default_config) config_voice)))
    as [name |] eqn:En.
  - exists name. split; [reflexivity | eapply nth_error_In; exact En].
  - apply nth_error_None in En. simpl in En. lia.
Qed.

(** * Initialisation and shutdown *)

(** X23: a sample rate configured in Hz is the rate the module works at:
    for a line whose key is [ViaVoiceSampleRate], in any letter case, and
    whose value is 8000, 11025 or 22050, when initialisation succeeds and
    the engine reads back the code it was given, [eci_sample_rate] is that
    value. *)
Theorem configured_sample_rate
    (key value : list Z) (cfg : config) (env : init_env)
    (st : module_state) (res : resources) (hz : Z) :
  strcasecmp_eq key (bytes_of_string "ViaVoiceSampleRate") = true ->
  In hz [8000; 11025; 22050] ->
  atoi value = hz ->
  eciNew_ok env = true -> malloc_ok env = true -> eciSetOutputBuffer_ok env = true ->
  sample_rate_read_back env
  = cfg_int (config_entry key value cfg) config_sample_rate ->
  eci_sample_rate (init_state (module_init env (config_entry key value cfg) st res))
  = hz.
Proof.
  intros Hkey Hhz Hval Hnew Hmalloc Hbuf Hback.
  unfold module_init. rewrite Hnew, Hmalloc, Hbuf. cbn [negb init_state].
  unfold set_rate. cbn [eci_sample_rate]. rewrite Hback.
  unfold config_entry. rewrite Hkey, Hval.
  simpl in Hhz. destruct Hhz as [<- | [<- | [<- | []]]]; reflexivity.
Qed.

Lemma configured_sample_rate_witness :
  eci_sample_rate
    (init_state
       (module_init (mkInitEnv true true true 1 false)
          (config_entry (bytes_of_string "viavoicesamplerate")
                        (bytes_of_string "11025") default_config)
          initial_state (mkResources false false)))
  = 11025.
Proof.
  apply (configured_sample_rate
           (bytes_of_string "viavoicesamplerate") (bytes_of_string "11025")
           default_config (mkInitEnv true true true 1 false)
           initial_state (mkResources false false) 11025);
    try reflexivity.
  simpl. tauto.
Defined.

(** X24: [module_init] returns 0 exactly when the engine instance, the
    scratch buffer and the output-buffer registration are all obtained;
    it then holds the handle and the buffer, works at 8000, 11025 or
    22050 Hz whatever code the engine reads back, and has left the stop
    flag and the collected audio alone. *)
Theorem module_init_success
    (env : init_env) (cfg : config) (st : module_state) (res : resources) :
  let r := module_init env cfg st res in
  (init_return r = 0 <->
   eciNew_ok env = true /\ malloc_ok env = true /\ eciSetOutputBuffer_ok env = true) /\
  (init_return r = 0 ->
   eciHandle (init_state r) = true /\
   audio_buffer (init_resources r) = true /\
   In (eci_sample_rate (init_state r)) [8000; 11025; 22050] /\
   stop_requested (init_state r) = stop_requested st /\
   audio_data (init_state r) = audio_data st).
Proof.
  cbv zeta. unfold module_init.
  destruct (eciNew_ok env), (malloc_ok env), (eciSetOutputBuffer_ok env);
    cbn [negb init_return init_state init_resources];
    (split; [split; [intros H; try discriminate H; repeat split
                    | intros (H1 & H2 & H3); try discriminate; reflexivity]
            | intros H; try discriminate H]).
  cbn [eciHandle set_rate set_handle audio_buffer eci_sample_rate
       stop_requested audio_data].
  repeat split. unfold rate_of_code.
  repeat match goal with |- context [if ?b then _ else _] => destruct b end;
    simpl; tauto.
Qed.

(** X25: when [module_init] fails it returns -1 and holds nothing: the
    handle is NULL, an engine instance that was created has been deleted, a
    scratch buffer that was allocated has been freed, and a later
    [module_speak_sync] only reports an error, without calling the
    engine. *)
Theorem module_init_failure
    (env : init_env) (cfg : config) (st : module_state) (res : resources) :
  let r := module_init env cfg st res in
  init_return r <> 0 ->
  init_return r = -1 /\
  eciHandle (init_state r) = false /\
  (In eciDelete (init_calls r) <-> eciNew_ok env = true) /\
  (In free_audio_buffer (init_calls r)
   <-> eciNew_ok env = true /\ malloc_ok env = true) /\
  (eciNew_ok env = true -> audio_buffer (init_resources r) = false) /\
  forall eng data msgtype,
    snd (module_speak_sync eng (init_state r) data msgtype) = [module_speak_error].
Proof.
  cbv zeta. unfold module_init.
  destruct (eciNew_ok env), (malloc_ok env), (eciSetOutputBuffer_ok env);
    cbn [negb init_return init_state init_resources init_calls];
    intros Hret; try (contradiction Hret; reflexivity);
    repeat split; intros; simpl in *; try reflexivity; try tauto;
    try (intuition discriminate).
Qed.

Lemma module_init_failure_witness :
  init_return (module_init (mkInitEnv true true false 2 false) default_config
                 initial_state (mkResources false false)) = -1.
Proof.
  apply (module_init_failure (mkInitEnv true true false 2 false) default_config
           initial_state (mkResources false false)).
  simpl. discriminate.
Defined.

Lemma voice_param_call_in_range (cfg : config) (v : config_var) (p : ECIVoiceParam) :
  config_ok cfg ->
  (forall x, allowed v x -> 0 <= x ->
             x <= match p with eciSpeed => 250 | _ => 100 end) ->
  Forall call_in_range (voice_param_call cfg v p).
Proof.
  intros [Hint _] Hmax. unfold voice_param_call.
  destruct (cfg_int cfg v >=? 0) eqn:E; [| constructor].
  rewrite Z.geb_leb in E. apply Z.leb_le in E.
  constructor; [| constructor]. simpl.
  pose proof (Hint config_voice) as Hv. simpl in Hv.
  repeat split; try lia. apply Hmax; [apply Hint | exact E].
Qed.

Lemma global_param_call_in_range (cfg : config) (v : config_var) (p : ECIParam) :
  p <> eciSampleRate ->
  Forall call_in_range (global_param_call cfg v p).
Proof.
  intros Hp. unfold global_param_call.
  destruct (cfg_int cfg v >=? 0) eqn:E; [| constructor].
  rewrite Z.geb_leb in E. apply Z.leb_le in E.
  constructor; [| constructor].
  destruct p; simpl; try exact E. contradiction Hp; reflexivity.
Qed.

Lemma load_dict_call_in_range (cfg : config) (d : dict_var) (vol : ECIDictVolume) :
  config_ok cfg -> Forall call_in_range (load_dict_call cfg d vol).
Proof.
  intros [_ Hdict]. unfold load_dict_call.
  destruct (is_empty (cfg_dict cfg d)) eqn:E; [constructor |].
  constructor; [| constructor]. simpl. split; [| apply Hdict].
  intros H. rewrite H in E. discriminate E.
Qed.

Lemma module_init_calls_in_range
    (env : init_env) (cfg : config) (st : module_state) (res : resources) :
  config_ok cfg -> Forall call_in_range (init_calls (module_init env cfg st res)).
Proof.
  intros Hok. unfold module_init.
  destruct (negb (eciNew_ok env)); [repeat constructor |].
  destruct (negb (malloc_ok env)); [repeat constructor |].
  destruct (negb (eciSetOutputBuffer_ok env)); [repeat constructor |].
  cbn [init_calls].
  pose proof (proj1 Hok config_sample_rate) as Hrate. simpl in Hrate.
  pose proof (proj1 Hok config_voice) as Hvoice. simpl in Hvoice.
  repeat (apply Forall_app; split);
    try (apply voice_param_call_in_range; [exact Hok | simpl; intros; lia]);
    try (apply global_param_call_in_range; discriminate).
  - repeat constructor; simpl; lia.
  - destruct (cfg_int cfg config_voice =? 0) eqn:E; [constructor |].
    apply Z.eqb_neq in E. repeat constructor; simpl; lia.
  - match goal with |- context [if ?b then _ else _] => destruct b end;
      [| constructor].
    constructor; [exact I |].
    destruct (eciNewDict_ok env); [| constructor].
    repeat (apply Forall_app; split);
      try (apply load_dict_call_in_range; exact Hok).
    repeat constructor.
Qed.

(** X26: whatever the configuration file holds and however the engine
    answers, every call [module_init] makes carries arguments within the
    engine's ranges: voices 0..7, voice parameters 0..100 (speed 0..250),
    the sample-rate code 0..2, no negative global parameter, dictionary
    paths non-empty and fitting their buffer; a variable left at -1 is
    never sent. *)
Theorem init_calls_within_engine_ranges
    (file : option (list (list Z))) (env : init_env)
    (st : module_state) (res : resources) :
  Forall call_in_range
    (init_calls (module_init env (module_config file default_config) st res)).
Proof.
  apply module_init_calls_in_range, module_config_ok, default_config_ok.
Qed.

(** X27: [module_close] leaves the handle and the buffers NULL and the
    collector empty, releases nothing twice, can be called again without
    making any call or changing anything, and a [module_speak_sync] that
    follows only reports an error. *)
Theorem module_close_releases_once (st : module_state) (res : resources) :
  let st1 := fst (fst (module_close st res)) in
  let res1 := snd (fst (module_close st res)) in
  eciHandle st1 = false /\
  audio_buffer res1 = false /\
  audio_data st1 = mkAudioData None 0 0 /\
  NoDup (snd (module_close st res)) /\
  module_close st1 res1 = (st1, res1, []) /\
  forall eng data msgtype,
    module_speak_sync eng st1 data msgtype = (st1, [module_speak_error]).
Proof.
  cbv zeta. unfold module_close. cbn [fst snd].
  split; [reflexivity |]. split; [reflexivity |]. split; [reflexivity |].
  split; [| split].
  - destruct (dictHandle res), (eciHandle st), (audio_buffer res),
      (samples (audio_data st)); simpl;
      repeat constructor; simpl; intuition discriminate.
  - cbn [eciHandle set_audio set_handle samples audio_data audio_buffer dictHandle].
    rewrite andb_false_r. simpl. destruct st as [h s r sz ad m]. simpl.
    destruct (dictHandle res && h); reflexivity.
  - intros eng data msgtype. reflexivity.
Qed.

(** * The reports of one utterance *)


(** * Configuration lines *)

Lemma drop_while_app_all f (a b : list Z) :
  forallb f a = true -> drop_while f (a ++ b) = drop_while f b.
Proof.
  induction a as [| c a IH]; simpl; [reflexivity |].
  intros H. apply andb_prop in H. destruct H as [Hc Ha].
  rewrite Hc. apply IH, Ha.
Qed.

Lemma take_word_whole (width : nat) (w rest : list Z) :
  (length w <= width)%nat ->
  forallb (fun c => negb ((c =? 0) || is_space c)) w = true ->
  rest = [] \/ (deref rest =? 0) || is_space (deref rest) = true ->
  take_word width (w ++ rest) = w.
Proof.
  revert width. induction w as [| c w IH]; intros width Hlen Hw Hrest.
  - simpl. destruct width; [reflexivity |].
    destruct rest as [| r rest]; [reflexivity |].
    destruct Hrest as [H | H]; [discriminate H |].
    simpl in *. rewrite H. reflexivity.
  - simpl in Hlen, Hw. apply andb_prop in Hw. destruct Hw as [Hc Hw].
    destruct width as [| width]; [lia |].
    simpl. apply negb_true_iff in Hc. rewrite Hc.
    f_equal. apply IH; [lia | exact Hw | exact Hrest].
Qed.

Lemma is_word_parts (w : list Z) :
  is_word w = true ->
  w <> [] /\ (length w <= 63)%nat /\
  forallb (fun c => negb ((c =? 0) || is_space c)) w = true /\
  (deref w =? 0) || is_space (deref w) = false.
Proof.
  unfold is_word. intros H.
  apply andb_prop in H. destruct H as [H Hall].
  apply andb_prop in H. destruct H as [Hne Hlen].
  apply Nat.leb_le in Hlen.
  destruct w as [| c w]; [discriminate Hne |].
  repeat split; try assumption; [discriminate |].
  simpl in Hall. apply andb_prop in Hall. destruct Hall as [Hc _].
  apply negb_true_iff in Hc. exact Hc.
Qed.

Lemma scan_word_reads (w rest : list Z) :
  is_word w = true ->
  rest = [] \/ (deref rest =? 0) || is_space (deref rest) = true ->
  scan_word (w ++ rest) = Some (w, rest).
Proof.
  intros Hw Hrest.
  destruct (is_word_parts w Hw) as (Hne & Hlen & Hall & Hhd).
  unfold scan_word.
  assert (Hdrop : drop_while is_space (w ++ rest) = w ++ rest).
  { apply drop_while_fixed. right.
    destruct w as [| c w]; [contradiction |].
    simpl in *. apply orb_false_elim in Hhd. apply Hhd. }
  rewrite Hdrop, (take_word_whole 63 w rest Hlen Hall Hrest).
  assert (Hskip : skipn (length w) (w ++ rest) = rest).
  { rewrite skipn_app, skipn_all, Nat.sub_diag. reflexivity. }
  destruct w as [| c w]; [contradiction |].
  rewrite Hskip. reflexivity.
Qed.

Lemma is_blank_is_space c : is_blank c = true -> is_space c = true.
Proof.
  unfold is_blank, is_space. intros H.
  apply orb_prop in H. destruct H as [H | H]; apply Z.eqb_eq in H; subst c;
    reflexivity.
Qed.

(** X29: a configuration line is read as its first two words: with any
    spaces or tabs before the key, any white space between key and value
    and anything after the white space that ends the value, the line has
    the effect of that key and value, provided the key does not start with
    [#] and both are words of at most 63 bytes. *)
Theorem config_line_reads_key_value
    (lead key sep value trail : list Z) (cfg : config) :
  forallb is_blank lead = true ->
  is_word key = true -> deref key <> 35 ->
  sep <> [] -> forallb is_space sep = true ->
  is_word value = true ->
  trail = [] \/ (deref trail =? 0) || is_space (deref trail) = true ->
  config_line (lead ++ key ++ sep ++ value ++ trail) cfg
  = config_entry key value cfg.
Proof.
  intros Hlead Hkey Hhash Hsep Hspace Hvalue Htrail.
  destruct (is_word_parts key Hkey) as (Hne & _ & _ & Hhd).
  apply orb_false_elim in Hhd. destruct Hhd as [Hk0 Hksp].
  destruct key as [| k key']; [contradiction |]. cbn [deref hd] in *.
  unfold config_line.
  rewrite (drop_while_app_all is_blank lead _ Hlead).
  assert (Hkb : is_blank k = false).
  { destruct (is_blank k) eqn:E; [| reflexivity].
    apply is_blank_is_space in E. congruence. }
  cbn [app drop_while]. rewrite Hkb. cbn [deref hd].
  apply Z.eqb_neq in Hhash. rewrite Hhash, Hk0.
  assert (Hk10 : (k =? 10) = false).
  { destruct (k =? 10) eqn:E; [| reflexivity].
    apply Z.eqb_eq in E. subst k. discriminate Hksp. }
  rewrite Hk10. cbn [orb].
  unfold scan_key_value.
  change (k :: key' ++ sep ++ value ++ trail)
    with ((k :: key') ++ (sep ++ value ++ trail)).
  rewrite (scan_word_reads (k :: key') (sep ++ value ++ trail) Hkey).
  - assert (Hscan : scan_word (sep ++ value ++ trail) = Some (value, trail)).
    { unfold scan_word.
      rewrite (drop_while_app_all is_space sep _ Hspace).
      fold (scan_word (value ++ trail)).
      apply scan_word_reads; assumption. }
    rewrite Hscan. reflexivity.
  - right. destruct sep as [| s0 sep']; [contradiction |].
    simpl in Hspace. apply andb_prop in Hspace. destruct Hspace as [Hs0 _].
    cbn [app deref hd]. rewrite Hs0. apply orb_true_r.
Qed.

Lemma config_line_reads_key_value_witness :
  config_line (bytes_of_string "  " ++ bytes_of_string "ViaVoiceSpeed" ++
               bytes_of_string "   " ++ bytes_of_string "120" ++ [10]) default_config
  = config_entry (bytes_of_string "ViaVoiceSpeed") (bytes_of_string "120") default_config.
Proof.
  apply (config_line_reads_key_value
           (bytes_of_string "  ") (bytes_of_string "ViaVoiceSpeed")
           (bytes_of_string "   ") (bytes_of_string "120") [10] default_config);
    try reflexivity.
  - vm_compute. discriminate.
  - discriminate.
  - right. reflexivity.
Defined.

Lemma engine_receives_clean_text_witness :
  let t := bytes_of_string "Hello world! Price, pound3.50" in
  t <> [] /\ Forall (fun c => c <> 0) t /\
  (wants_sanitize SPD_MSGTYPE_TEXT = true ->
   t = sanitize_for_viavoice
         (strip_ssml (bytes_of_string "Hello <i>world</i>! Price: " ++ [194; 163]
                      ++ bytes_of_string "3.50")) /\
   Forall declared_safe t).
Proof.
  apply (engine_receives_clean_text silent_engine initial_state
           (bytes_of_string "Hello <i>world</i>! Price: " ++ [194; 163]
            ++ bytes_of_string "3.50") SPD_MSGTYPE_TEXT).
  vm_compute. left. reflexivity.
Defined.
